(** * Login flow of the NestJS API template

  A shallow embedding of the login flow and of the application setup
  around it:

  - [JS]: the run-time values the TypeScript code manipulates (objects are
    finite maps from property names to values);
  - [ResponseInterceptor]: the response-envelope interceptor
    ([ResponseInterceptor.intercept] and [isStandardFormat]);
  - [Knex], [KnexUserRepository], [SeedUsers]: the users table, the
    repository class [UserRepository] bound to [USER_REPOSITORY], and the
    seed of the users table;
  - [Effects]: a small free monad for the collaborators the use case
    awaits (the repository, bcrypt), with an interpreter that runs the
    repository against a database that may not answer and a hasher that
    may reject, and records every collaborator call;
  - [LoginUseCase], [LoginSchema], [AuthController]: the use case, the
    zod schema of the login body and the handler of [POST /auth/login];
  - [Regex], [Cors]: the origin check of [AppConfig.setup].

  The body pipe that [AppConfig.setup] registers ([I18nValidationPipe]) is
  library code and is not embedded: the handler is studied for every DTO
  it can be handed, the schema for every body it can be given.

  Strings are byte strings holding UTF-8 text.  [Str.js_length] is the
  length JavaScript reports for such a string; [Str.toLowerCase] and
  [Str.trim] are exact on ASCII text. *)

From Stdlib Require Import ZArith Ascii String List.
From stdpp Require Import base option strings list gmap.

#[local] Set Warnings "-register-all".
#[local] Open Scope string_scope.

(* ===================================================================== *)
(** ** JavaScript values *)
(* ===================================================================== *)

Module JS.

(** JSON-like values plus [undefined].  Numbers are restricted to the
    integers; an object is the finite map of its own properties. *)
Inductive value : Type :=
| VUndefined
| VNull
| VBool (b : bool)
| VNum (n : Z)
| VStr (s : string)
| VArr (items : list value)
| VObj (props : gmap string value).

(** [ToBoolean]: what [data && ...] and [!user] test. *)
Definition truthy (v : value) : bool :=
  match v with
  | VUndefined | VNull => false
  | VBool b => b
  | VNum n => negb (n =? 0)%Z
  | VStr s => negb (String.eqb s "")
  | VArr _ | VObj _ => true
  end.

(** The [typeof] operator; note [typeof null === 'object']. *)
Definition typeof (v : value) : string :=
  match v with
  | VUndefined => "undefined"
  | VNull => "object"
  | VBool _ => "boolean"
  | VNum _ => "number"
  | VStr _ => "string"
  | VArr _ | VObj _ => "object"
  end.

(** The number a string of decimal digits denotes. *)
Fixpoint digits_value (acc : N) (s : string) : option N :=
  match s with
  | EmptyString => Some acc
  | String c rest =>
      let d := N_of_ascii c in
      if ((48 <=? d) && (d <=? 57))%N
      then digits_value (acc * 10 + (d - 48)) rest
      else None
  end.

(** An array index is a property name in canonical decimal form. *)
Definition array_index (k : string) : option N :=
  match k with
  | EmptyString => None
  | String "0" EmptyString => Some 0%N
  | String "0" _ => None
  | _ => digits_value 0 k
  end.

(** The own property names of an array: its indices and [length]. *)
Definition array_has_key (k : string) (items : list value) : bool :=
  String.eqb k "length"
  || match array_index k with
     | Some i => (i <? N.of_nat (length items))%N
     | None => false
     end.

(** [k in v] on own properties.  On a primitive the operator throws; every
    use in the sources is guarded by [typeof v === 'object'] and a
    truthiness test, so that case is never reached and reads [false]. *)
Definition has_property (k : string) (v : value) : bool :=
  match v with
  | VObj props => bool_decide (is_Some (props !! k))
  | VArr items => array_has_key k items
  | _ => false
  end.

(** Property read [o.k] on an object: a missing property is [undefined]. *)
Definition get (k : string) (o : gmap string value) : value :=
  default VUndefined (o !! k).

(** [v === null || v === undefined]. *)
Definition nullish (v : value) : bool :=
  match v with
  | VUndefined | VNull => true
  | _ => false
  end.

(** [v] is the string [s]. *)
Definition is_str (s : string) (v : option value) : bool :=
  match v with
  | Some (VStr s') => String.eqb s s'
  | _ => false
  end.

End JS.
Import JS.

(* ===================================================================== *)
(** ** Response normalization *)
(* ===================================================================== *)

Module ResponseInterceptor.

(** [isStandardFormat(data)]: the short-circuit chain of the source. *)
Definition isStandardFormat (data : value) : bool :=
  truthy data
  && String.eqb (typeof data) "object"
  && has_property "success" data
  && has_property "timestamp" data.

(** A [Date] as far as the interceptor uses it: the instant together with
    its ISO-8601 rendering, the string [toISOString()] returns. *)
Record Date : Type := mkDate {
  toISOString : string
}.

(** The object literal [{ success: true, data, timestamp }]. *)
Definition envelope (now : Date) (data : value) : value :=
  VObj {[ "success" := VBool true;
          "data" := data;
          "timestamp" := VStr (toISOString now) ]}.

(** The callback given to [map]; [now] is what [new Date()] yields when the
    callback runs. *)
Definition project (now : Date) (data : value) : value :=
  if isStandardFormat data then data
  else
    let data := if nullish data then VNull else data in
    envelope now data.

(** [intercept]: [next.handle().pipe(map(project))].  The observable is
    the list of values the handler emits; [clock i] is the clock reading
    at the [i]-th emission. *)
Definition intercept (clock : nat -> Date) (emitted : list value)
  : list value :=
  imap (fun i data => project (clock i) data) emitted.

(** The envelope shape in the words of the specification: an object that
    already contains both a [success] and a [timestamp] field. *)
Definition already_enveloped (data : value) : Prop :=
  exists props,
    data = VObj props
    /\ is_Some (props !! "success")
    /\ is_Some (props !! "timestamp").

End ResponseInterceptor.

(* ===================================================================== *)
(** ** String built-ins *)
(* ===================================================================== *)

Module Str.

Definition between (lo hi : N) (c : ascii) : bool :=
  let n := N_of_ascii c in ((lo <=? n) && (n <=? hi))%N.

Definition is_upper : ascii -> bool := between 65 90.
Definition is_lower : ascii -> bool := between 97 122.
Definition is_digit : ascii -> bool := between 48 57.
Definition is_alpha (c : ascii) : bool := is_upper c || is_lower c.
Definition is_alnum (c : ascii) : bool := is_alpha c || is_digit c.

(** The ASCII white space that [trim] removes: TAB, LF, VT, FF, CR and
    SPACE. *)
Definition is_space (c : ascii) : bool :=
  between 9 13 c || (N_of_ascii c =? 32)%N.

Definition lower_char (c : ascii) : ascii :=
  if is_upper c then ascii_of_N (N_of_ascii c + 32) else c.

(** [String.prototype.toLowerCase]. *)
Fixpoint toLowerCase (s : string) : string :=
  match s with
  | EmptyString => EmptyString
  | String c rest => String (lower_char c) (toLowerCase rest)
  end.

Fixpoint trimStart (s : string) : string :=
  match s with
  | EmptyString => EmptyString
  | String c rest => if is_space c then trimStart rest else s
  end.

Fixpoint trimEnd (s : string) : string :=
  match s with
  | EmptyString => EmptyString
  | String c rest =>
      match trimEnd rest with
      | EmptyString => if is_space c then EmptyString else String c EmptyString
      | kept => String c kept
      end
  end.

(** [String.prototype.trim]. *)
Definition trim (s : string) : string := trimEnd (trimStart s).

(** The number of UTF-16 code units a byte of UTF-8 text stands for: one
    for an ASCII byte and for the first byte of a two- or three-byte
    sequence, two for the first byte of a four-byte sequence (a surrogate
    pair), none for a continuation byte. *)
Definition utf16_units (c : ascii) : nat :=
  let n := N_of_ascii c in
  if (n <? 128)%N then 1
  else if (n <? 192)%N then 0
  else if (n <? 240)%N then 1
  else 2.

(** [s.length]: the number of UTF-16 code units of the string. *)
Fixpoint js_length (s : string) : nat :=
  match s with
  | EmptyString => 0
  | String c rest => utf16_units c + js_length rest
  end.

End Str.

(* ===================================================================== *)
(** ** The email pattern of the validation library *)
(* ===================================================================== *)

Module Zod.

(** One entry of a validation error: the path of the offending field and
    the message the schema attached to the violated rule.  [None] stands for
    the default message of the library, which the schema does not fix. *)
Record ZodIssue : Type := mkIssue {
  path : list string;
  message : option string
}.

(** [c] is one of the characters of [cs]. *)
Definition one_of (cs : string) (c : ascii) : bool :=
  existsb (Ascii.eqb c) (list_ascii_of_string cs).

Definition local_char (c : ascii) : bool := Str.is_alnum c || one_of "_'+-." c.
Definition local_last (c : ascii) : bool := Str.is_alnum c || one_of "_+-" c.
Definition label_char (c : ascii) : bool := Str.is_alnum c || one_of "-" c.

(** Split at the first occurrence of [sep]. *)
Fixpoint split_first (sep : ascii) (l : list ascii)
  : option (list ascii * list ascii) :=
  match l with
  | [] => None
  | c :: rest =>
      if Ascii.eqb c sep then Some ([], rest)
      else match split_first sep rest with
           | Some (before, after) => Some (c :: before, after)
           | None => None
           end
  end.

(** All pieces between occurrences of [sep]. *)
Fixpoint split_all (sep : ascii) (l : list ascii) : list (list ascii) :=
  match l with
  | [] => [[]]
  | c :: rest =>
      match split_all sep rest with
      | piece :: pieces =>
          if Ascii.eqb c sep then [] :: piece :: pieces
          else (c :: piece) :: pieces
      | [] => [[c]]
      end
  end.

Fixpoint has_double_dot (l : list ascii) : bool :=
  match l with
  | c :: ((d :: _) as rest) =>
      (Ascii.eqb c "." && Ascii.eqb d ".") || has_double_dot rest
  | _ => false
  end.

Definition local_ok (l : list ascii) : bool :=
  match l, last l with
  | first :: _, Some final =>
      negb (Ascii.eqb first ".")
      && negb (has_double_dot l)
      && forallb local_char l
      && local_last final
  | _, _ => false
  end.

Definition label_ok (l : list ascii) : bool :=
  match l with
  | [] => false
  | first :: rest => Str.is_alnum first && forallb label_char rest
  end.

Definition tld_ok (l : list ascii) : bool :=
  Nat.leb 2 (length l) && forallb Str.is_alpha l.

Definition domain_ok (l : list ascii) : bool :=
  match rev (split_all "." l) with
  | tld :: ((_ :: _) as labels) => tld_ok tld && forallb label_ok labels
  | _ => false
  end.

(** The pattern behind [z.string().email()], used to run the schema on
    concrete requests.  Case-insensitively: a local part that does not start
    with a dot, has no two dots in a row, is made of letters, digits and
    the characters _ ' + - . and ends in a letter, a digit or one of _ + -;
    then an at sign; then one or more labels, each a letter or digit followed
    by letters, digits and hyphens and closed by a dot; then a top-level
    name of two or more letters.  The schema itself is stated over any
    format check. *)
Definition isEmail (s : string) : bool :=
  match split_first "@" (list_ascii_of_string s) with
  | Some (local, domain) => local_ok local && domain_ok domain
  | None => false
  end.

End Zod.

(* ===================================================================== *)
(** ** The users table, its repository and its seed *)
(* ===================================================================== *)

Module Knex.

(** A table is the list of its rows, oldest first; a row maps column names
    to values.  A database that does not answer and an insert the database
    refuses are accounted for where the repository is run, in [Effects]
    below. *)
Abbreviation Table := (list (gmap string value)).

(** [table.where({ col: v }).first()] for a string [v]. *)
Definition where_first (col v : string) (table : Table)
  : option (gmap string value) :=
  List.find (fun row => is_str v (row !! col)) table.

(** [table.insert(row).returning('*')]: the [id] column defaults to a fresh
    UUID when the row does not give one (migration of the users table). *)
Definition insert_returning (uuid : value) (row : gmap string value)
  (table : Table) : gmap string value * Table :=
  let stored :=
    match row !! "id" with
    | Some _ => row
    | None => <["id" := uuid]> row
    end in
  (stored, (table ++ [stored])%list).

(** [table.del()] without a condition. *)
Definition del (table : Table) : Table := [].

End Knex.

Module KnexUserRepository.

Section WithEntity.

(** The constructor of the [User] entity, which is not among the sources. *)
Variable newUser : gmap string value -> gmap string value.

(** [UserRepository.findByEmail] *)
Definition findByEmail (table : Knex.Table) (email : string)
  : option (gmap string value) :=
  match Knex.where_first "email" email table with
  | None => None
  | Some user => Some (newUser user)
  end.

(** The object literal handed to the constructor by [create]. *)
Definition created_fields (user : gmap string value) : gmap string value :=
  {[ "id" := get "id" user;
     "email" := get "email" user;
     "password" := get "password" user;
     "name" := get "name" user;
     "createdAt" := get "created_at" user;
     "updatedAt" := get "updated_at" user ]}.

(** [UserRepository.create]; [now] is the value of [this.fn.now()] and
    [uuid] the identifier the database would generate. *)
Definition create (uuid now : value) (userData : gmap string value)
  (table : Knex.Table) : gmap string value * Knex.Table :=
  let '(user, table') :=
    Knex.insert_returning uuid
      (<["updated_at" := now]> (<["created_at" := now]> userData)) table in
  (newUser (created_fields user), table').

End WithEntity.

End KnexUserRepository.

Module SeedUsers.

Definition seed_row (email hashedPassword name : string) (now : value)
  : gmap string value :=
  {[ "email" := VStr email;
     "password" := VStr hashedPassword;
     "name" := VStr name;
     "created_at" := now;
     "updated_at" := now ]}.

(** [seed(knex)]: empties the users table, hashes the one test password and
    inserts the three test users.  [hash] is [bcrypt.hash], [uuid i] the
    identifier generated for the [i]-th inserted row and [now] the value of
    [knex.fn.now()]. *)
Definition seed (hash : string -> Z -> string) (uuid : nat -> value)
  (now : value) (table : Knex.Table) : Knex.Table :=
  let table := Knex.del table in
  let hashedPassword := hash "password123" 10%Z in
  let '(_, table) :=
    Knex.insert_returning (uuid 0%nat)
      (seed_row "admin@example.com" hashedPassword "Admin User" now) table in
  let '(_, table) :=
    Knex.insert_returning (uuid 1%nat)
      (seed_row "user@example.com" hashedPassword "Test User" now) table in
  let '(_, table) :=
    Knex.insert_returning (uuid 2%nat)
      (seed_row "demo@example.com" hashedPassword "Demo User" now) table in
  table.

End SeedUsers.


(* ===================================================================== *)
(** ** Collaborators and effects *)
(* ===================================================================== *)

Module Effects.

(** The HTTP exception the login flow throws. *)
Inductive HttpException : Type :=
| UnauthorizedException (message : string).

Definition getStatus (e : HttpException) : Z :=
  match e with
  | UnauthorizedException _ => 401
  end.

(** What an awaited call can reject with: an HTTP exception thrown by the
    code, or the error of a collaborator, which nothing in the flow
    catches. *)
Inductive Rejection : Type :=
| HttpError (e : HttpException)
| CollaboratorError (message : string).

(** An asynchronous computation that awaits its collaborators: each node is
    one awaited call and the continuation that receives its answer. *)
Inductive prog (A : Type) : Type :=
| Ret (a : A)
| Throw (e : HttpException)
| OpFindByEmail (email : string) (k : option (gmap string value) -> prog A)
| OpCreate (userData : gmap string value) (k : gmap string value -> prog A)
| OpCompare (data : string) (encrypted : value) (k : bool -> prog A).

Arguments Ret {A} a.
Arguments Throw {A} e.
Arguments OpFindByEmail {A} email k.
Arguments OpCreate {A} userData k.
Arguments OpCompare {A} data encrypted k.

Fixpoint bind {A B : Type} (p : prog A) (f : A -> prog B) : prog B :=
  match p with
  | Ret a => f a
  | Throw e => Throw e
  | OpFindByEmail email k => OpFindByEmail email (fun r => bind (k r) f)
  | OpCreate userData k => OpCreate userData (fun r => bind (k r) f)
  | OpCompare data encrypted k =>
      OpCompare data encrypted (fun r => bind (k r) f)
  end.

Declare Scope prog_scope.
Delimit Scope prog_scope with prog.
Notation "x <- c1 ;; c2" := (bind c1 (fun x => c2))
  (at level 100, c1 at next level, right associativity) : prog_scope.

(** [await this.userRepository.findByEmail(email)] *)
Definition userRepository_findByEmail (email : string)
  : prog (option (gmap string value)) :=
  OpFindByEmail email Ret.

(** [await bcrypt.compare(data, encrypted)] *)
Definition bcrypt_compare (data : string) (encrypted : value) : prog bool :=
  OpCompare data encrypted Ret.

(** The database behind the repository: the rows of the users table and,
    when the database does not answer, the error every query meets. *)
Record Database : Type := mkDatabase {
  rows : Knex.Table;
  outage : option string
}.

(** What the sources leave to their surroundings: the constructor of the
    [User] entity; [bcrypt.compare], which resolves to a boolean or
    rejects (as it does when it is given no hash); the error the database
    raises when an insert violates a constraint of the table, if it does;
    the identifier the database generates for a new row and the value of
    [now()]. *)
Record World : Type := mkWorld {
  entity : gmap string value -> gmap string value;
  hasher : string -> value -> string + bool;
  violation : Knex.Table -> gmap string value -> option string;
  uuid : Knex.Table -> value;
  now : value
}.

(** What an observer of the collaborators sees. *)
Inductive event : Type :=
| EvFindByEmail (email : string)
| EvCreate (userData : gmap string value)
| EvCompare (data : string) (encrypted : value).

Inductive Result (A : Type) : Type :=
| Returned (a : A)
| Threw (e : Rejection).

Arguments Returned {A} a.
Arguments Threw {A} e.

(** The outcome of a run: the settled promise, the database afterwards and
    the collaborator calls in the order they were made. *)
Record Run (A : Type) : Type := mkRun {
  result : Result A;
  store : Database;
  trace : list event
}.

Arguments mkRun {A} result store trace.
Arguments result {A} r.
Arguments store {A} r.
Arguments trace {A} r.

Definition log {A : Type} (ev : event) (r : Run A) : Run A :=
  mkRun (result r) (store r) (ev :: trace r).

(** Run a computation: the repository calls are those of
    [KnexUserRepository] on the rows of the database; a query on a database
    that does not answer rejects, and so do an insert the database refuses
    and a comparison the hasher rejects; a rejection ends the computation,
    since nothing catches it. *)
Fixpoint run {A : Type} (w : World) (p : prog A) (db : Database) : Run A :=
  match p with
  | Ret a => mkRun (Returned a) db []
  | Throw e => mkRun (Threw (HttpError e)) db []
  | OpFindByEmail email k =>
      log (EvFindByEmail email)
          match outage db with
          | Some err => mkRun (Threw (CollaboratorError err)) db []
          | None =>
              run w
                  (k (KnexUserRepository.findByEmail (entity w) (rows db)
                                                     email))
                  db
          end
  | OpCreate userData k =>
      log (EvCreate userData)
          match outage db with
          | Some err => mkRun (Threw (CollaboratorError err)) db []
          | None =>
              match violation w (rows db) userData with
              | Some err => mkRun (Threw (CollaboratorError err)) db []
              | None =>
                  let '(user, table) :=
                    KnexUserRepository.create (entity w) (uuid w (rows db))
                                              (now w) userData (rows db) in
                  run w (k user) (mkDatabase table None)
              end
          end
  | OpCompare data encrypted k =>
      log (EvCompare data encrypted)
          match hasher w data encrypted with
          | inl err => mkRun (Threw (CollaboratorError err)) db []
          | inr answer => run w (k answer) db
          end
  end.

(** Computations that never ask the repository to write. *)
Inductive read_only {A : Type} : prog A -> Prop :=
| ro_ret a : read_only (Ret a)
| ro_throw e : read_only (Throw e)
| ro_findByEmail email k :
    (forall r, read_only (k r)) -> read_only (OpFindByEmail email k)
| ro_compare data encrypted k :
    (forall r, read_only (k r)) -> read_only (OpCompare data encrypted k).

Definition is_compare (ev : event) : bool :=
  match ev with
  | EvCompare _ _ => true
  | _ => false
  end.

End Effects.
Import Effects.
#[local] Open Scope prog_scope.

(* ===================================================================== *)
(** ** The login use case *)
(* ===================================================================== *)

Module LoginUseCase.

Record LoginInput : Type := mkLoginInput {
  email : string;
  password : string
}.

(** [token] is optional in the interface; [None] is an absent property. *)
Record LoginOutput : Type := mkLoginOutput {
  user : gmap string value;
  token : option string
}.

(** [LoginUseCase.execute].  The rest pattern
    [const { password: _, ...userWithoutPassword } = user] copies every
    own property of [user] except [password]. *)
Definition execute (input : LoginInput) : prog LoginOutput :=
  user <- userRepository_findByEmail (email input) ;;
  match user with
  | None => Throw (UnauthorizedException "Invalid credentials")
  | Some user =>
      isPasswordValid <-
        bcrypt_compare (password input) (get "password" user) ;;
      if negb isPasswordValid
      then Throw (UnauthorizedException "Invalid credentials")
      else
        let userWithoutPassword := delete "password" user in
        Ret (mkLoginOutput userWithoutPassword None)
  end.

End LoginUseCase.

(* ===================================================================== *)
(** ** The login request schema *)
(* ===================================================================== *)

Module LoginSchema.

(** The parsed request body. *)
Record LoginDto : Type := mkLoginDto {
  email : string;
  password : string
}.

Definition issue (field text : string) : Zod.ZodIssue :=
  Zod.mkIssue [field] (Some text).

Definition issues_of {A : Type} (r : list Zod.ZodIssue + A)
  : list Zod.ZodIssue :=
  match r with
  | inl issues => issues
  | inr _ => []
  end.

Section Schema.

(** The format check behind [.email(...)]. *)
Variable isEmail : string -> bool.

(** The checks of the [email] string, all of them run, in order. *)
Definition email_checks (val : string) : list Zod.ZodIssue :=
  ((if isEmail val then []
    else [issue "email" "Must be a valid email address"])
   ++
   (if Nat.leb 1 (Str.js_length val) then []
    else [issue "email" "Email cannot be empty"]))%list.

(** [z.string({message}).email(..).min(1, ..).transform(..)]: the transform
    runs only on a value that passed every check. *)
Definition parse_email (v : value) : list Zod.ZodIssue + string :=
  match v with
  | VStr val =>
      match email_checks val with
      | [] => inr (Str.trim (Str.toLowerCase val))
      | issues => inl issues
      end
  | _ => inl [issue "email" "Email is required"]
  end.

Definition password_checks (val : string) : list Zod.ZodIssue :=
  ((if Nat.leb 6 (Str.js_length val) then []
    else [issue "password" "Password must be at least 6 characters"])
   ++
   (if Nat.leb (Str.js_length val) 100 then []
    else [issue "password" "Password is too long"]))%list.

(** [z.string({message}).min(6, ..).max(100, ..)]; the bounds are on the
    [length] of the JavaScript string. *)
Definition parse_password (v : value) : list Zod.ZodIssue + string :=
  match v with
  | VStr val =>
      match password_checks val with
      | [] => inr val
      | issues => inl issues
      end
  | _ => inl [issue "password" "Password is required"]
  end.

(** [LoginSchema.safeParse(body)]: both fields are parsed and the issues of
    both are reported, [email] first; unknown keys are dropped. *)
Definition safeParse (body : value) : list Zod.ZodIssue + LoginDto :=
  match body with
  | VObj props =>
      match parse_email (get "email" props),
            parse_password (get "password" props) with
      | inr e, inr p => inr (mkLoginDto e p)
      | e, p => inl (issues_of e ++ issues_of p)%list
      end
  | _ => inl [Zod.mkIssue [] None]
  end.

End Schema.

End LoginSchema.

(* ===================================================================== *)
(** ** The controller *)
(* ===================================================================== *)

Module AuthController.

Definition token_value (t : option string) : value :=
  match t with
  | Some s => VStr s
  | None => VUndefined
  end.

(** The object literal under [user:] in the handler's answer. *)
Definition user_fields (u : gmap string value) : gmap string value :=
  {[ "id" := get "id" u;
     "email" := get "email" u;
     "name" := get "name" u;
     "createdAt" := get "createdAt" u;
     "updatedAt" := get "updatedAt" u ]}.

(** [AuthController.login]; [loginDto] is what the body pipe hands over. *)
Definition login (loginDto : LoginSchema.LoginDto) : prog value :=
  result <-
    LoginUseCase.execute
      (LoginUseCase.mkLoginInput (LoginSchema.email loginDto)
                                 (LoginSchema.password loginDto)) ;;
  Ret (VObj {[
    "user" := VObj (user_fields (LoginUseCase.user result));
    "token" := token_value (LoginUseCase.token result);
    "message" := VStr "Login successful" ]}).

(** The JSON body [{ "email": .., "password": .. }]. *)
Definition credentials (email password : string) : value :=
  VObj {[ "email" := VStr email; "password" := VStr password ]}.

End AuthController.

(* ===================================================================== *)
(** ** A sample world *)
(* ===================================================================== *)

Module Sample.

(** A stand-in for [bcrypt.hash], enough to run the flow: the digest is the
    plaintext behind a fixed prefix. *)
Definition hash (plaintext : string) (saltRounds : Z) : string :=
  "$2b$10$" ++ plaintext.

(** The matching stand-in for [bcrypt.compare]; like bcrypt it rejects
    when the hash is not a string. *)
Definition compare (data : string) (encrypted : value) : string + bool :=
  match encrypted with
  | VStr h => inr (String.eqb h (hash data 10%Z))
  | _ => inl "data and hash arguments required"
  end.

Definition uuid (i : nat) : value :=
  VStr (nth i [ "550e8400-e29b-41d4-a716-446655440000";
                "550e8400-e29b-41d4-a716-446655440001";
                "550e8400-e29b-41d4-a716-446655440002" ]
              "550e8400-e29b-41d4-a716-446655440003").

(** The unique index and the not-null constraint on [email]. *)
Definition violation (table : Knex.Table) (userData : gmap string value)
  : option string :=
  match userData !! "email" with
  | Some (VStr email) =>
      match Knex.where_first "email" email table with
      | Some _ => Some "duplicate key value violates unique constraint"
      | None => None
      end
  | _ => Some "null value in column email violates not-null constraint"
  end.

Definition now : value := VStr "2024-01-01T00:00:00.000Z".

(** The users table as [seed] leaves it. *)
Definition table : Knex.Table := SeedUsers.seed hash uuid now [].

(** A database that answers, holding the seeded table. *)
Definition db : Database := mkDatabase table None.

(** A world whose entity constructor keeps the properties it is given. *)
Definition world : World :=
  mkWorld (fun row => row) compare violation
          (fun rows => uuid (length rows)) now.

End Sample.


(* ===================================================================== *)
(** ** Regular expressions *)
(* ===================================================================== *)

Module Regex.

(** The fragment of regular expressions the sources use, over characters
    given by a test. *)
Inductive re : Type :=
| Void
| Eps
| Chr (p : ascii -> bool)
| Cat (r1 r2 : re)
| Alt (r1 r2 : re)
| Star (r : re).

Fixpoint nullable (r : re) : bool :=
  match r with
  | Void => false
  | Eps => true
  | Chr _ => false
  | Cat r1 r2 => nullable r1 && nullable r2
  | Alt r1 r2 => nullable r1 || nullable r2
  | Star _ => true
  end.

(** What is left of [r] once the character [c] has been read. *)
Fixpoint deriv (c : ascii) (r : re) : re :=
  match r with
  | Void => Void
  | Eps => Void
  | Chr p => if p c then Eps else Void
  | Cat r1 r2 =>
      if nullable r1
      then Alt (Cat (deriv c r1) r2) (deriv c r2)
      else Cat (deriv c r1) r2
  | Alt r1 r2 => Alt (deriv c r1) (deriv c r2)
  | Star r1 => Cat (deriv c r1) (Star r1)
  end.

Fixpoint matches (r : re) (s : list ascii) : bool :=
  match s with
  | [] => nullable r
  | c :: rest => matches (deriv c r) rest
  end.

(** [/^r$/.test(s)]: the whole string is in the language of [r]. *)
Definition test (r : re) (s : string) : bool :=
  matches r (list_ascii_of_string s).

(** The strings a regular expression denotes. *)
Fixpoint lang (r : re) (s : list ascii) : Prop :=
  match r with
  | Void => False
  | Eps => s = []
  | Chr p => exists c, s = [c] /\ p c = true
  | Cat r1 r2 => exists s1 s2, s = (s1 ++ s2)%list /\ lang r1 s1 /\ lang r2 s2
  | Alt r1 r2 => lang r1 s \/ lang r2 s
  | Star r1 => exists pieces, s = concat pieces /\ Forall (lang r1) pieces
  end.

Definition char (c : ascii) : re := Chr (Ascii.eqb c).

(** A literal run of characters. *)
Fixpoint lit (w : string) : re :=
  match w with
  | EmptyString => Eps
  | String c rest => Cat (char c) (lit rest)
  end.

(** [\d] *)
Definition digit : re := Chr Str.is_digit.

(** [r?] *)
Definition opt (r : re) : re := Alt r Eps.

(** [r+] *)
Definition plus (r : re) : re := Cat r (Star r).

(** [r{1,3}] *)
Definition rep_1_3 (r : re) : re := Cat r (opt (Cat r (opt r))).

(** Concatenation of several parts. *)
Fixpoint seq (parts : list re) : re :=
  match parts with
  | [] => Eps
  | [r] => r
  | r :: rest => Cat r (seq rest)
  end.

End Regex.

(* ===================================================================== *)
(** ** The CORS origin check of the application setup *)
(* ===================================================================== *)

Module Cors.

(** [String.prototype.includes]: [needle] occurs somewhere in [hay]. *)
Fixpoint includes (needle hay : string) : bool :=
  String.prefix needle hay
  || match hay with
     | EmptyString => false
     | String _ rest => includes needle rest
     end.

(** [String.prototype.split] on a one-character separator. *)
Fixpoint split (sep : ascii) (s : string) : list string :=
  match s with
  | EmptyString => [EmptyString]
  | String c rest =>
      match split sep rest with
      | piece :: pieces =>
          if Ascii.eqb c sep then EmptyString :: piece :: pieces
          else String c piece :: pieces
      | [] => [String c EmptyString]
      end
  end.

(** [Array.prototype.includes] on strings. *)
Definition list_includes (l : list string) (s : string) : bool :=
  existsb (String.eqb s) l.

(** [(:\d+)?] *)
Definition port : Regex.re :=
  Regex.opt (Regex.Cat (Regex.char ":") (Regex.plus Regex.digit)).

(** [\d{1,3}] *)
Definition octet : Regex.re := Regex.rep_1_3 Regex.digit.

(** [^http:\/\/192\.168\.\d{1,3}\.\d{1,3}(:\d+)?$] *)
Definition private_192_168 : Regex.re :=
  Regex.seq [Regex.lit "http://192.168."; octet; Regex.char "."; octet; port].

(** [^http:\/\/10\.\d{1,3}\.\d{1,3}\.\d{1,3}(:\d+)?$] *)
Definition private_10 : Regex.re :=
  Regex.seq [Regex.lit "http://10."; octet; Regex.char "."; octet;
             Regex.char "."; octet; port].

(** [(1[6-9]|2\d|3[0-1])] *)
Definition second_octet_172 : Regex.re :=
  Regex.Alt (Regex.Cat (Regex.char "1") (Regex.Chr (Str.between 54 57)))
    (Regex.Alt (Regex.Cat (Regex.char "2") Regex.digit)
               (Regex.Cat (Regex.char "3") (Regex.Chr (Str.between 48 49)))).

(** [^http:\/\/172\.(1[6-9]|2\d|3[0-1])\.\d{1,3}\.\d{1,3}(:\d+)?$] *)
Definition private_172 : Regex.re :=
  Regex.seq [Regex.lit "http://172."; second_octet_172; Regex.char ".";
             octet; Regex.char "."; octet; port].

(** The pieces of a private-network origin, in words: a run of decimal
    digits; an octet as the patterns see it, one to three digits; an
    optional port, a colon and at least one digit. *)
Definition digits (s : string) : Prop :=
  Forall (fun c => Str.is_digit c = true) (list_ascii_of_string s).

Definition is_octet (s : string) : Prop :=
  1 <= String.length s <= 3 /\ digits s.

Definition is_port (s : string) : Prop :=
  s = "" \/ exists d, s = ":" ++ d /\ 1 <= String.length d /\ digits d.

(** What the callback is called with: [(null, true)] or an [Error]. *)
Inductive Decision : Type :=
| Allowed
| Refused (message : string).

(** The tests of the first branch that do not look at the allow list.  An
    absent origin is [None]; [!origin] also holds of the empty string. *)
Definition exempt (origin : option string) : bool :=
  match origin with
  | None => true
  | Some o =>
      String.eqb o ""
      || String.eqb o "null"
      || includes "localhost" o
      || includes "127.0.0.1" o
      || Regex.test private_192_168 o
      || Regex.test private_10 o
      || Regex.test private_172 o
  end.

(** [process.env.CORS_ORIGIN?.split(',') || []] *)
Definition allowedOrigins (CORS_ORIGIN : option string) : list string :=
  match CORS_ORIGIN with
  | Some v => split "," v
  | None => []
  end.

(** The [origin] callback given to [enableCors]. *)
Definition origin_callback (CORS_ORIGIN origin : option string) : Decision :=
  let allowedOrigins := allowedOrigins CORS_ORIGIN in
  if exempt origin
     || match origin with
        | Some o => list_includes allowedOrigins o
        | None => false
        end
  then Allowed
  else if Nat.eqb (length allowedOrigins) 0
          || match allowedOrigins with
             | first :: _ => String.eqb first "*"
             | [] => false
             end
  then Allowed
  else Refused "Not allowed by CORS".

End Cors.


(* ===================================================================== *)
(** * The definitions at work *)
(* ===================================================================== *)

Module Examples.

Example lower_then_trim :
  Str.trim (Str.toLowerCase "  USER@Example.com ") = "user@example.com".
Proof. reflexivity. Qed.

Example trim_keeps_inner_space : Str.trim " a b " = "a b".
Proof. reflexivity. Qed.

(** Three e-acute letters are three characters in six bytes; a character
    outside the basic plane counts for two. *)
Example js_length_samples :
  Str.js_length "password123" = 11
  /\ Str.js_length (String "195" (String "169" (String "195" (String "169"
                     (String "195" (String "169" EmptyString)))))) = 3
  /\ Str.js_length (String "240" (String "159" (String "152"
                     (String "128" EmptyString)))) = 2.
Proof. repeat split. Qed.

Example email_formats :
  Zod.isEmail "USER@Example.com" = true
  /\ Zod.isEmail "first.last+tag@mail.example.org" = true
  /\ Zod.isEmail "not-an-email" = false
  /\ Zod.isEmail " user@example.com" = false
  /\ Zod.isEmail "a..b@example.com" = false
  /\ Zod.isEmail ".a@example.com" = false
  /\ Zod.isEmail "a.@example.com" = false
  /\ Zod.isEmail "a@b@example.com" = false
  /\ Zod.isEmail "user@example" = false
  /\ Zod.isEmail "user@example.c" = false
  /\ Zod.isEmail "user@-example.com" = false
  /\ Zod.isEmail "" = false.
Proof. repeat split. Qed.

Example typeof_null : typeof VNull = "object".
Proof. reflexivity. Qed.

Example array_keys :
  has_property "0" (VArr [VNull]) = true
  /\ has_property "1" (VArr [VNull]) = false
  /\ has_property "01" (VArr [VNull; VNull]) = false
  /\ has_property "length" (VArr []) = true.
Proof. repeat split. Qed.

Example array_is_not_standard (items : list value) :
  ResponseInterceptor.isStandardFormat (VArr items) = false.
Proof. reflexivity. Qed.

Example standard_format_samples :
  ResponseInterceptor.isStandardFormat
    (VObj {[ "success" := VBool false; "message" := VStr "no";
             "timestamp" := VNull ]}) = true
  /\ ResponseInterceptor.isStandardFormat
       (VObj {[ "success" := VBool true; "data" := VNum 1 ]}) = false
  /\ ResponseInterceptor.isStandardFormat VNull = false
  /\ ResponseInterceptor.isStandardFormat (VStr "success timestamp") = false.
Proof. repeat split. Qed.

Example intercept_single_emission :
  ResponseInterceptor.intercept
    (fun _ => ResponseInterceptor.mkDate "2024-01-01T00:00:00.000Z")
    [VNum 7]
  = [VObj {[ "success" := VBool true; "data" := VNum 7;
             "timestamp" := VStr "2024-01-01T00:00:00.000Z" ]}].
Proof. reflexivity. Qed.

Example parse_empty_object :
  LoginSchema.safeParse Zod.isEmail (VObj ∅)
  = inl [LoginSchema.issue "email" "Email is required";
         LoginSchema.issue "password" "Password is required"].
Proof. reflexivity. Qed.

Example parse_empty_email :
  LoginSchema.safeParse Zod.isEmail (AuthController.credentials "" "secret1")
  = inl [LoginSchema.issue "email" "Must be a valid email address";
         LoginSchema.issue "email" "Email cannot be empty"].
Proof. reflexivity. Qed.

Example parse_not_an_email_ab :
  LoginSchema.safeParse Zod.isEmail
    (AuthController.credentials "not-an-email" "ab")
  = inl [LoginSchema.issue "email" "Must be a valid email address";
         LoginSchema.issue "password"
                           "Password must be at least 6 characters"].
Proof. reflexivity. Qed.

Example parse_mixed_case :
  LoginSchema.safeParse Zod.isEmail
    (AuthController.credentials "USER@Example.com" "password123")
  = inr (LoginSchema.mkLoginDto "user@example.com" "password123").
Proof. reflexivity. Qed.

Example parse_not_an_object :
  LoginSchema.safeParse Zod.isEmail (VStr "email=a@b.co")
  = inl [Zod.mkIssue [] None].
Proof. reflexivity. Qed.

Example parse_drops_unknown_keys :
  LoginSchema.safeParse Zod.isEmail
    (VObj {[ "email" := VStr "Demo@Example.com"; "password" := VStr "secret1";
             "admin" := VBool true ]})
  = inr (LoginSchema.mkLoginDto "demo@example.com" "secret1").
Proof. reflexivity. Qed.

(** Three e-acute letters are too short a password, though six bytes. *)
Example parse_short_accented_password :
  LoginSchema.parse_password
    (VStr (String "195" (String "169" (String "195" (String "169"
            (String "195" (String "169" EmptyString)))))))
  = inl [LoginSchema.issue "password"
                           "Password must be at least 6 characters"].
Proof. reflexivity. Qed.

Example seeded_rows_have_column_names :
  match Knex.where_first "email" "user@example.com" Sample.table with
  | Some row =>
      row !! "created_at" = Some Sample.now
      /\ row !! "createdAt" = None
      /\ row !! "id" = Some (VStr "550e8400-e29b-41d4-a716-446655440001")
      /\ row !! "name" = Some (VStr "Test User")
  | None => False
  end.
Proof. repeat split. Qed.

Example wrong_password_run :
  run Sample.world
      (LoginUseCase.execute
         (LoginUseCase.mkLoginInput "demo@example.com" "letmein"))
      Sample.db
  = mkRun (Threw (HttpError (UnauthorizedException "Invalid credentials")))
          Sample.db
          [EvFindByEmail "demo@example.com";
           EvCompare "letmein" (VStr "$2b$10$password123")].
Proof. reflexivity. Qed.

Example successful_run_has_no_password :
  match result (run Sample.world
                    (LoginUseCase.execute
                       (LoginUseCase.mkLoginInput "admin@example.com"
                                                  "password123"))
                    Sample.db) with
  | Returned out =>
      LoginUseCase.user out !! "password" = None
      /\ LoginUseCase.user out !! "name" = Some (VStr "Admin User")
      /\ LoginUseCase.token out = None
  | Threw _ => False
  end.
Proof. repeat split. Qed.

(** A database that does not answer and a hasher that rejects surface as
    they are. *)
Example outage_surfaces :
  run Sample.world
      (LoginUseCase.execute
         (LoginUseCase.mkLoginInput "user@example.com" "password123"))
      (mkDatabase Sample.table (Some "connect ECONNREFUSED"))
  = mkRun (Threw (CollaboratorError "connect ECONNREFUSED"))
          (mkDatabase Sample.table (Some "connect ECONNREFUSED"))
          [EvFindByEmail "user@example.com"].
Proof. reflexivity. Qed.

Example missing_hash_surfaces :
  result (run Sample.world
              (LoginUseCase.execute
                 (LoginUseCase.mkLoginInput "ghost@example.com" "password123"))
              (mkDatabase [ {[ "email" := VStr "ghost@example.com" ]} ] None))
  = Threw (CollaboratorError "data and hash arguments required").
Proof. reflexivity. Qed.

Example create_writes :
  rows (store (run Sample.world
                   (OpCreate {[ "email" := VStr "new@example.com" ]} Ret)
                   (mkDatabase [] None)))
  = [ {[ "id" := Sample.uuid 0;
         "email" := VStr "new@example.com";
         "created_at" := Sample.now;
         "updated_at" := Sample.now ]} ].
Proof. apply (f_equal (fun x => [x])). apply map_eq. intros k. vm_compute. reflexivity. Qed.

Example duplicate_email_is_refused :
  run Sample.world
      (OpCreate {[ "email" := VStr "user@example.com" ]} Ret) Sample.db
  = mkRun (Threw (CollaboratorError
                    "duplicate key value violates unique constraint"))
          Sample.db
          [EvCreate {[ "email" := VStr "user@example.com" ]}].
Proof. reflexivity. Qed.

End Examples.

(* ===================================================================== *)
(** * Properties of the response interceptor *)
(* ===================================================================== *)

Module ResponseFacts.
Import ResponseInterceptor.

(** The structural test of the source recognises exactly the objects that
    carry both fields. *)
Lemma isStandardFormat_spec (data : value) :
  isStandardFormat data = true <-> already_enveloped data.
Proof.
  unfold isStandardFormat, already_enveloped.
  destruct data as [| | b | n | s | items | props]; cbn.
  1-6: split; [ rewrite ?andb_false_r; discriminate
              | intros (props & Heq & _); discriminate Heq ].
  rewrite andb_true_iff, !bool_decide_eq_true. split.
  - intros [Hs Ht]. exists props. auto.
  - intros (props' & Heq & Hs & Ht). injection Heq as <-. auto.
Qed.

Lemma isStandardFormat_false (data : value) :
  isStandardFormat data = false <-> ~ already_enveloped data.
Proof.
  rewrite <- isStandardFormat_spec. destruct (isStandardFormat data); split;
    try congruence; intros H; exfalso; apply H; reflexivity.
Qed.

Lemma envelope_is_standard (now : Date) (data : value) :
  isStandardFormat (envelope now data) = true.
Proof.
  apply isStandardFormat_spec. eexists; split; [reflexivity |].
  split; [exists (VBool true) | exists (VStr (toISOString now))];
    reflexivity.
Qed.

Lemma envelope_data (now : Date) (data : value) (props : gmap string value) :
  envelope now data = VObj props -> props !! "data" = Some data.
Proof. intros H. injection H as <-. reflexivity. Qed.

Lemma project_standard (now : Date) (data : value) :
  isStandardFormat data = true -> project now data = data.
Proof. intros H. unfold project. rewrite H. reflexivity. Qed.

Lemma project_is_standard (now : Date) (data : value) :
  isStandardFormat (project now data) = true.
Proof.
  unfold project. destruct (isStandardFormat data) eqn:Hstd; [exact Hstd |].
  apply envelope_is_standard.
Qed.

Lemma project_project (now now' : Date) (data : value) :
  project now' (project now data) = project now data.
Proof. apply project_standard, project_is_standard. Qed.

Lemma intercept_lookup (clock : nat -> Date) (emitted : list value) (i : nat) :
  intercept clock emitted !! i = project (clock i) <$> emitted !! i.
Proof.
  exact (list_lookup_imap (fun i data => project (clock i) data) emitted i).
Qed.

Lemma intercept_length (clock : nat -> Date) (emitted : list value) :
  length (intercept clock emitted) = length emitted.
Proof.
  unfold intercept.
  exact (length_imap (fun i data => project (clock i) data) emitted).
Qed.

(** C8.  When the handler's payload is [null] or absent ([undefined]), the
    value the response interceptor sends in its place is the envelope
    [{ success: true, data: null, timestamp }]: the [data] property is
    present and holds [null], it is never left out.  The interceptor
    answers each emission of the handler in its place, so the envelope
    stands where the payload stood. *)
Theorem intercept_nullish_payload_data_null :
  forall (clock : nat -> Date) (emitted : list value) (i : nat)
         (payload : value),
    emitted !! i = Some payload ->
    payload = VNull \/ payload = VUndefined ->
    intercept clock emitted !! i = Some (envelope (clock i) VNull)
    /\ length (intercept clock emitted) = length emitted
    /\ exists props,
         intercept clock emitted !! i = Some (VObj props)
         /\ props !! "success" = Some (VBool true)
         /\ props !! "data" = Some VNull
         /\ props !! "timestamp" = Some (VStr (toISOString (clock i)))
         /\ has_property "data" (VObj props) = true.
Proof.
  intros clock emitted i payload Hi Hnull.
  assert (Hout : intercept clock emitted !! i
                 = Some (envelope (clock i) VNull)).
  { rewrite intercept_lookup, Hi. destruct Hnull as [-> | ->]; reflexivity. }
  split; [exact Hout |]. split; [apply intercept_length |].
  eexists. split; [exact Hout |]. repeat split.
Qed.

Lemma intercept_nullish_payload_data_null_applied :
  let clock := fun _ : nat => mkDate "2024-01-01T00:00:00.000Z" in
  intercept clock [VUndefined] !! 0%nat
  = Some (envelope (mkDate "2024-01-01T00:00:00.000Z") VNull)
  /\ intercept clock [VNum 1; VNull] !! 1%nat
     = Some (envelope (mkDate "2024-01-01T00:00:00.000Z") VNull).
Proof.
  intros clock. split.
  - destruct (intercept_nullish_payload_data_null
                clock [VUndefined] 0%nat VUndefined) as (H & _).
    + reflexivity.
    + right. reflexivity.
    + exact H.
  - destruct (intercept_nullish_payload_data_null
                clock [VNum 1; VNull] 1%nat VNull) as (H & _).
    + reflexivity.
    + left. reflexivity.
    + exact H.
Defined.

(** C4, as the code has it.  A payload that is an object already holding
    both a [success] and a [timestamp] property comes back unmodified;
    normalising twice is the same as normalising once, for one value and
    for everything a handler emits; every other payload is wrapped exactly
    once into [{ success: true, data, timestamp }], where [timestamp] is the
    ISO-8601 rendering of the clock reading and [data] is the payload
    itself, except that an [undefined] payload is carried as [null]. *)
Theorem project_idempotent_wraps_once :
  forall (now now' : Date) (payload : value),
    (already_enveloped payload -> project now payload = payload)
    /\ project now' (project now payload) = project now payload
    /\ (forall (clock clock' : nat -> Date) (emitted : list value),
          intercept clock' (intercept clock emitted)
          = intercept clock emitted)
    /\ (~ already_enveloped payload ->
        project now payload
        = VObj {[ "success" := VBool true;
                  "data" := if nullish payload then VNull else payload;
                  "timestamp" := VStr (toISOString now) ]}
        /\ (payload <> VUndefined ->
            project now payload
            = VObj {[ "success" := VBool true;
                      "data" := payload;
                      "timestamp" := VStr (toISOString now) ]})).
Proof.
  intros now now' payload. split; [| split; [| split]].
  - intros H. apply project_standard, isStandardFormat_spec, H.
  - apply project_project.
  - intros clock clock' emitted. apply list_eq. intros i.
    rewrite !intercept_lookup.
    destruct (emitted !! i) as [data |]; cbn; [| reflexivity].
    rewrite project_project. reflexivity.
  - intros H. apply isStandardFormat_false in H.
    unfold project. rewrite H. cbv zeta. split; [reflexivity |].
    intros Hdef. destruct payload; try reflexivity. contradiction.
Qed.

Lemma project_idempotent_wraps_once_applied :
  let t := mkDate "2024-01-01T00:00:00.000Z" in
  let t' := mkDate "2024-01-01T00:00:01.000Z" in
  project t (envelope t' (VStr "pong")) = envelope t' (VStr "pong")
  /\ project t (VStr "pong") = envelope t (VStr "pong")
  /\ project t' (project t (VArr [VNum 1; VNum 2]))
     = project t (VArr [VNum 1; VNum 2]).
Proof.
  intros t t'. split; [| split].
  - destruct (project_idempotent_wraps_once t t (envelope t' (VStr "pong")))
      as (Hpass & _ & _ & _).
    apply Hpass. apply isStandardFormat_spec. reflexivity.
  - destruct (project_idempotent_wraps_once t t (VStr "pong"))
      as (_ & _ & _ & Hwrap).
    apply Hwrap.
    + apply isStandardFormat_false. reflexivity.
    + discriminate.
  - destruct (project_idempotent_wraps_once t t' (VArr [VNum 1; VNum 2]))
      as (_ & Hidem & _ & _).
    exact Hidem.
Defined.

(** C4 as stated fails on the absent payload: [undefined] is not an object
    holding [success] and [timestamp], yet it is not wrapped into
    [{ success: true, data: payload, timestamp }]: the [data] property of
    its wrapping is [null], not the payload. *)
Lemma project_undefined_not_wrapped_verbatim :
  ~ already_enveloped VUndefined
  /\ (forall now : Date,
        project now VUndefined
        = VObj {[ "success" := VBool true;
                  "data" := VNull;
                  "timestamp" := VStr (toISOString now) ]})
  /\ ~ (forall (now : Date) (payload : value),
          ~ already_enveloped payload ->
          project now payload
          = VObj {[ "success" := VBool true;
                    "data" := payload;
                    "timestamp" := VStr (toISOString now) ]}).
Proof.
  assert (Hne : ~ already_enveloped VUndefined).
  { apply isStandardFormat_false. reflexivity. }
  split; [exact Hne |]. split; [reflexivity |].
  intros H.
  specialize (H (mkDate "2024-01-01T00:00:00.000Z") VUndefined Hne).
  apply (envelope_data _ VNull _) in H.
  discriminate H.
Qed.

End ResponseFacts.

(* ===================================================================== *)
(* ===================================================================== *)
(** * Properties of the effect interpreter *)
(* ===================================================================== *)

Module EffectFacts.

Lemma result_log {A : Type} (ev : event) (r : Run A) :
  result (log ev r) = result r.
Proof. reflexivity. Qed.

Lemma store_log {A : Type} (ev : event) (r : Run A) :
  store (log ev r) = store r.
Proof. reflexivity. Qed.

Lemma trace_log {A : Type} (ev : event) (r : Run A) :
  trace (log ev r) = ev :: trace r.
Proof. reflexivity. Qed.

(** Sequencing: the second computation starts from the database the first
    one left, and a rejection of the first skips the second. *)
Lemma run_bind {A B : Type} (w : World) (p : prog A) (f : A -> prog B)
  (db : Database) :
  run w (bind p f) db =
  match result (run w p db) with
  | Returned a =>
      let r' := run w (f a) (store (run w p db)) in
      mkRun (result r') (store r') (trace (run w p db) ++ trace r')%list
  | Threw e =>
      mkRun (Threw e) (store (run w p db)) (trace (run w p db))
  end.
Proof.
  revert db.
  induction p as [a | e | email k IH | userData k IH
                  | data encrypted k IH]; intros db; cbn [bind run].
  - cbn. destruct (run w (f a) db); reflexivity.
  - reflexivity.
  - destruct (outage db) as [err |]; [reflexivity |].
    rewrite IH, result_log, store_log, trace_log.
    destruct (result (run w (k _) db)); reflexivity.
  - destruct (outage db) as [err |]; [reflexivity |].
    destruct (violation w (rows db) userData) as [err |]; [reflexivity |].
    destruct (KnexUserRepository.create _ _ _ _ _) as [user table].
    rewrite IH, result_log, store_log, trace_log.
    destruct (result (run w (k _) _)); reflexivity.
  - destruct (hasher w data encrypted) as [err | answer]; [reflexivity |].
    rewrite IH, result_log, store_log, trace_log.
    destruct (result (run w (k _) db)); reflexivity.
Qed.

(** Frame property: a computation that never asks for a write leaves the
    database as it found it, also when a collaborator fails. *)
Lemma read_only_store {A : Type} (w : World) (p : prog A) :
  read_only p ->
  forall db : Database, store (run w p db) = db.
Proof.
  induction 1 as [a | e | email k _ IH | data encrypted k _ IH];
    intros db; cbn [run]; rewrite ?store_log; auto.
  - destruct (outage db); [reflexivity | apply IH].
  - destruct (hasher w data encrypted); [reflexivity | apply IH].
Qed.

(** A write the database accepts, by contrast, is visible in the table. *)
Example create_changes_store :
  forall (w : World) (table : Knex.Table) (userData : gmap string value),
    violation w table userData = None ->
    rows (store (run w (OpCreate userData Ret) (mkDatabase table None)))
    = snd (KnexUserRepository.create (entity w) (uuid w table) (now w)
             userData table).
Proof.
  intros w table userData Hok. cbn [run outage rows]. rewrite Hok.
  destruct (KnexUserRepository.create _ _ _ _ _) as [user table'].
  reflexivity.
Qed.

End EffectFacts.

(* ===================================================================== *)
(** * Properties of the login use case *)
(* ===================================================================== *)

Module LoginFacts.
Import LoginUseCase.

(** What a run of [execute] amounts to, case by case. *)
Lemma run_execute (w : World) (db : Database) (input : LoginInput) :
  run w (execute input) db =
  match outage db with
  | Some err =>
      mkRun (Threw (CollaboratorError err)) db [EvFindByEmail (email input)]
  | None =>
      match KnexUserRepository.findByEmail (entity w) (rows db)
                                           (email input) with
      | None =>
          mkRun (Threw (HttpError
                          (UnauthorizedException "Invalid credentials")))
                db [EvFindByEmail (email input)]
      | Some u =>
          mkRun (match hasher w (password input) (get "password" u) with
                 | inl err => Threw (CollaboratorError err)
                 | inr true =>
                     Returned (mkLoginOutput (delete "password" u) None)
                 | inr false =>
                     Threw (HttpError
                              (UnauthorizedException "Invalid credentials"))
                 end)
                db
                [EvFindByEmail (email input);
                 EvCompare (password input) (get "password" u)]
      end
  end.
Proof.
  unfold execute, userRepository_findByEmail, bcrypt_compare.
  cbn [bind run].
  destruct (outage db) as [err |]; [reflexivity |].
  destruct (KnexUserRepository.findByEmail (entity w) (rows db)
                                           (email input)) as [u |];
    cbn [bind run]; [| reflexivity].
  destruct (hasher w (password input) (get "password" u)) as [err | [|]];
    reflexivity.
Qed.

Lemma execute_read_only (input : LoginInput) : read_only (execute input).
Proof.
  unfold execute, userRepository_findByEmail, bcrypt_compare. cbn [bind].
  constructor. intros [u |]; cbn [bind]; [| constructor].
  constructor. intros [|]; constructor.
Qed.

(** Whether the lookup finds a row does not depend on the entity
    constructor. *)
Lemma findByEmail_none (newUser newUser' : gmap string value -> gmap string value)
  (table : Knex.Table) (key : string) :
  KnexUserRepository.findByEmail newUser table key = None ->
  KnexUserRepository.findByEmail newUser' table key = None.
Proof.
  unfold KnexUserRepository.findByEmail.
  destruct (Knex.where_first "email" key table); [discriminate | reflexivity].
Qed.

(** C10.  When the users table, which answers, has no row for the email, the
    run consists of the lookup alone: the comparison is never called, so the
    outcome is the same [UnauthorizedException('Invalid credentials')]
    whatever the password and whatever the hasher would have answered or
    however it would have failed. *)
Theorem unknown_email_never_compares :
  forall (w1 w2 : World) (db : Database) (unknown pw1 pw2 : string),
    outage db = None ->
    KnexUserRepository.findByEmail (entity w1) (rows db) unknown = None ->
    let r1 := run w1 (execute (mkLoginInput unknown pw1)) db in
    let r2 := run w2 (execute (mkLoginInput unknown pw2)) db in
    r1 = r2
    /\ result r1
       = Threw (HttpError (UnauthorizedException "Invalid credentials"))
    /\ trace r1 = [EvFindByEmail unknown]
    /\ existsb is_compare (trace r1) = false.
Proof.
  intros w1 w2 db unknown pw1 pw2 Hup Hnone r1 r2.
  subst r1 r2. rewrite !run_execute. cbn [email password].
  rewrite Hup, Hnone, (findByEmail_none _ (entity w2) _ _ Hnone).
  repeat split.
Qed.

Lemma unknown_email_never_compares_applied :
  run Sample.world
      (execute (mkLoginInput "nobody@example.com" "password123")) Sample.db
  = run (mkWorld (fun row => row) (fun _ _ => inl "hasher down")
                 (fun _ _ => None) (fun _ => VNull) VNull)
        (execute (mkLoginInput "nobody@example.com" "hunter2")) Sample.db.
Proof.
  apply (unknown_email_never_compares
           Sample.world
           (mkWorld (fun row => row) (fun _ _ => inl "hasher down")
                    (fun _ _ => None) (fun _ => VNull) VNull)
           Sample.db "nobody@example.com" "password123" "hunter2").
  - reflexivity.
  - reflexivity.
Defined.

(** C7.  A run of [execute] leaves the users table exactly as it found it,
    for every input and also when a collaborator fails: its only
    collaborator calls are one [findByEmail] and, when a row was found, one
    password comparison.  A second call therefore meets the same table and
    settles as the first did; with valid credentials both calls succeed
    with the same user and the stored row is still there, unchanged. *)
Theorem execute_performs_no_writes :
  forall (w : World) (db : Database) (input : LoginInput),
    let first := run w (execute input) db in
    let second := run w (execute input) (store first) in
    store first = db
    /\ (trace first = [EvFindByEmail (email input)]
        \/ exists encrypted,
             trace first = [EvFindByEmail (email input);
                            EvCompare (password input) encrypted])
    /\ second = first
    /\ (forall u : gmap string value,
          outage db = None ->
          KnexUserRepository.findByEmail (entity w) (rows db) (email input)
          = Some u ->
          hasher w (password input) (get "password" u) = inr true ->
          let out := mkLoginOutput (delete "password" u) None in
          run w (a <- execute input ;; b <- execute input ;; Ret (a, b)) db
          = mkRun (Returned (out, out)) db
                  [EvFindByEmail (email input);
                   EvCompare (password input) (get "password" u);
                   EvFindByEmail (email input);
                   EvCompare (password input) (get "password" u)]
          /\ KnexUserRepository.findByEmail (entity w) (rows (store second))
                                            (email input)
             = Some u).
Proof.
  intros w db input first second.
  assert (Hstore : store first = db).
  { apply EffectFacts.read_only_store, execute_read_only. }
  split; [exact Hstore |]. split; [| split].
  - subst first. rewrite run_execute.
    destruct (outage db) as [err |]; [left; reflexivity |].
    destruct (KnexUserRepository.findByEmail _ _ _) as [u |];
      [right; eexists |left]; reflexivity.
  - subst second. rewrite Hstore. reflexivity.
  - intros u Hup Hfound Hvalid out. split.
    + rewrite !EffectFacts.run_bind, !run_execute, Hup, Hfound, Hvalid.
      cbn [result store trace].
      rewrite !EffectFacts.run_bind, !run_execute, Hup, Hfound, Hvalid.
      reflexivity.
    + subst second. rewrite Hstore, run_execute, Hup, Hfound. exact Hfound.
Qed.

Lemma execute_performs_no_writes_applied :
  let input := mkLoginInput "user@example.com" "password123" in
  exists u out,
    Knex.where_first "email" "user@example.com" Sample.table = Some u
    /\ out = mkLoginOutput (delete "password" u) None
    /\ run Sample.world
           (a <- execute input ;; b <- execute input ;; Ret (a, b)) Sample.db
       = mkRun (Returned (out, out)) Sample.db
               [EvFindByEmail "user@example.com";
                EvCompare "password123" (get "password" u);
                EvFindByEmail "user@example.com";
                EvCompare "password123" (get "password" u)].
Proof.
  intros input.
  destruct (Knex.where_first "email" "user@example.com" Sample.table)
    as [u |] eqn:Hrow; [| discriminate Hrow].
  exists u, (mkLoginOutput (delete "password" u) None).
  split; [reflexivity |]. split; [reflexivity |].
  destruct (execute_performs_no_writes Sample.world Sample.db input)
    as (_ & _ & _ & Hvalid).
  apply (Hvalid u).
  - reflexivity.
  - cbn [Sample.world entity Sample.db rows input email].
    unfold KnexUserRepository.findByEmail. rewrite Hrow. reflexivity.
  - injection Hrow as <-. reflexivity.
Defined.

End LoginFacts.

(* ===================================================================== *)
(** * Properties of the controller *)
(* ===================================================================== *)

Module ControllerFacts.
Import AuthController.

Lemma get_delete_ne (k k' : string) (u : gmap string value) :
  k <> k' -> get k (delete k' u) = get k u.
Proof. intros Hne. unfold get. rewrite lookup_delete_ne; auto. Qed.

Lemma user_fields_delete_password (u : gmap string value) :
  user_fields (delete "password" u) = user_fields u.
Proof. unfold user_fields. rewrite !get_delete_ne by discriminate. reflexivity. Qed.

Lemma user_fields_no_password (u : gmap string value) :
  user_fields u !! "password" = None.
Proof. reflexivity. Qed.

Lemma user_fields_keys (u : gmap string value) (k : string) :
  is_Some (user_fields u !! k)
  <-> k ∈ ["id"; "email"; "name"; "createdAt"; "updatedAt"].
Proof.
  split.
  - intros Hsome.
    destruct (decide (k ∈ ["id"; "email"; "name"; "createdAt"; "updatedAt"]))
      as [Hin | Hout]; [exact Hin | exfalso].
    rewrite !elem_of_cons, elem_of_nil in Hout.
    revert Hsome. unfold user_fields.
    repeat (rewrite lookup_insert_ne by (intros <-; tauto)).
    rewrite lookup_singleton_ne by (intros <-; tauto).
    intros [v Hv]. discriminate Hv.
  - intros Hin.
    repeat (apply elem_of_cons in Hin as [-> | Hin];
            [eexists; reflexivity |]).
    inversion Hin.
Qed.

Lemma user_fields_values (u : gmap string value) (k : string) :
  k ∈ ["id"; "email"; "name"; "createdAt"; "updatedAt"] ->
  user_fields u !! k = Some (get k u).
Proof.
  intros Hin.
  repeat (apply elem_of_cons in Hin as [-> | Hin]; [reflexivity |]).
  inversion Hin.
Qed.

(** What a run of the handler amounts to, case by case. *)
Lemma run_login (w : World) (db : Database) (dto : LoginSchema.LoginDto) :
  run w (login dto) db =
  match outage db with
  | Some err =>
      mkRun (Threw (CollaboratorError err)) db
            [EvFindByEmail (LoginSchema.email dto)]
  | None =>
      match KnexUserRepository.findByEmail (entity w) (rows db)
                                           (LoginSchema.email dto) with
      | None =>
          mkRun (Threw (HttpError
                          (UnauthorizedException "Invalid credentials")))
                db [EvFindByEmail (LoginSchema.email dto)]
      | Some u =>
          mkRun (match hasher w (LoginSchema.password dto)
                                (get "password" u) with
                 | inl err => Threw (CollaboratorError err)
                 | inr true =>
                     Returned (VObj {[ "user" := VObj (user_fields u);
                                       "token" := VUndefined;
                                       "message" := VStr "Login successful" ]})
                 | inr false =>
                     Threw (HttpError
                              (UnauthorizedException "Invalid credentials"))
                 end)
                db
                [EvFindByEmail (LoginSchema.email dto);
                 EvCompare (LoginSchema.password dto) (get "password" u)]
      end
  end.
Proof.
  unfold login. rewrite EffectFacts.run_bind, LoginFacts.run_execute.
  cbn [LoginUseCase.email LoginUseCase.password].
  destruct (outage db) as [err |]; [reflexivity |].
  destruct (KnexUserRepository.findByEmail (entity w) (rows db)
                                           (LoginSchema.email dto)) as [u |];
    cbn [result store trace]; [| reflexivity].
  destruct (hasher w (LoginSchema.password dto) (get "password" u))
    as [err | [|]];
    cbn [result store trace run LoginUseCase.user LoginUseCase.token
         token_value app]; [reflexivity | | reflexivity].
  rewrite user_fields_delete_password. reflexivity.
Qed.

End ControllerFacts.

(* ===================================================================== *)
(** * Properties of the request schema *)
(* ===================================================================== *)

Module SchemaFacts.
Import LoginSchema.

Section WithFormatCheck.

Variable isEmail : string -> bool.

Lemma email_checks_nil (val : string) :
  email_checks isEmail val = []
  <-> isEmail val = true /\ 1 <= Str.js_length val.
Proof.
  unfold email_checks.
  destruct (isEmail val); destruct (Nat.leb_spec 1 (Str.js_length val));
    cbn; split; try discriminate; try (intros [? ?]; try discriminate; lia);
    auto.
Qed.

Lemma password_checks_nil (val : string) :
  password_checks val = [] <-> 6 <= Str.js_length val <= 100.
Proof.
  unfold password_checks.
  destruct (Nat.leb_spec 6 (Str.js_length val));
    destruct (Nat.leb_spec (Str.js_length val) 100);
    cbn; split; try discriminate; try lia; auto.
Qed.

Lemma parse_email_inr (v : value) (e : string) :
  parse_email isEmail v = inr e
  <-> exists raw,
        v = VStr raw /\ isEmail raw = true /\ 1 <= Str.js_length raw
        /\ e = Str.trim (Str.toLowerCase raw).
Proof.
  split.
  - unfold parse_email.
    destruct v as [| | b | n | raw | items | props];
      try (intros Hbad; discriminate Hbad).
    destruct (email_checks isEmail raw) eqn:Hchecks;
      [| intros Hbad; discriminate Hbad].
    intros [= <-]. apply email_checks_nil in Hchecks as [? ?].
    exists raw. auto.
  - intros (raw & -> & Hfmt & Hlen & ->). unfold parse_email.
    rewrite (proj2 (email_checks_nil raw)); auto.
Qed.

Lemma parse_password_inr (v : value) (p : string) :
  parse_password v = inr p
  <-> v = VStr p /\ 6 <= Str.js_length p <= 100.
Proof.
  split.
  - unfold parse_password.
    destruct v as [| | b | n | raw | items | props];
      try (intros Hbad; discriminate Hbad).
    destruct (password_checks raw) eqn:Hchecks;
      [| intros Hbad; discriminate Hbad].
    intros [= <-]. apply password_checks_nil in Hchecks. auto.
  - intros [-> Hlen]. unfold parse_password.
    rewrite (proj2 (password_checks_nil p)); auto.
Qed.

(** A body passes exactly when it is an object whose [email] is a string in
    email format and whose [password] is a string of 6 to 100 characters;
    the DTO then carries the email lowercased and trimmed. *)
Lemma safeParse_inr (body : value) (dto : LoginDto) :
  safeParse isEmail body = inr dto
  <-> exists props raw,
        body = VObj props
        /\ get "email" props = VStr raw
        /\ isEmail raw = true /\ 1 <= Str.js_length raw
        /\ get "password" props = VStr (password dto)
        /\ 6 <= Str.js_length (password dto) <= 100
        /\ email dto = Str.trim (Str.toLowerCase raw).
Proof.
  split.
  - destruct body as [| | b | n | s | items | props]; cbn; try discriminate.
    destruct (parse_email isEmail (get "email" props)) as [ie | e] eqn:He;
      destruct (parse_password (get "password" props)) as [ip | p] eqn:Hp;
      try discriminate.
    intros [= <-]. cbn [email password].
    apply parse_email_inr in He as (raw & Hraw & Hfmt & Hlen & ->).
    apply parse_password_inr in Hp as [Hpw Hplen].
    exists props, raw. auto 10.
  - intros (props & raw & -> & Hraw & Hfmt & Hlen & Hpw & Hplen & He).
    cbn. rewrite Hraw, Hpw.
    rewrite (proj2 (parse_email_inr (VStr raw) (email dto)))
      by (exists raw; auto).
    rewrite (proj2 (parse_password_inr (VStr (password dto)) (password dto)))
      by auto.
    destruct dto; reflexivity.
Qed.

Lemma safeParse_password_issue (props : gmap string value)
  (issues : list Zod.ZodIssue) :
  parse_password (get "password" props) = inl issues ->
  exists before,
    safeParse isEmail (VObj props) = inl (before ++ issues)%list.
Proof.
  intros Hp. cbn. rewrite Hp.
  destruct (parse_email isEmail (get "email" props)) as [ie | e];
    [exists ie | exists []]; reflexivity.
Qed.

End WithFormatCheck.

End SchemaFacts.


(* ===================================================================== *)
(** * The login flow: use case and handler together *)
(* ===================================================================== *)

Module PipelineFacts.
Import AuthController.

Lemma get_credentials_email (e p : string) :
  get "email" {[ "email" := VStr e; "password" := VStr p ]} = VStr e.
Proof. reflexivity. Qed.

Lemma get_credentials_password (e p : string) :
  get "password" {[ "email" := VStr e; "password" := VStr p ]} = VStr p.
Proof. reflexivity. Qed.


(** C1.  An unknown email and a known email with a wrong password are
    rejected alike: when the users table has no row for the one email and
    the hasher refuses the password against the row of the other, the use
    case throws [UnauthorizedException] with the one message
    ['Invalid credentials'] (status 401) in both cases, the handler lets it
    through unchanged, and so the two settled results are equal; nothing in
    them tells the two cases apart. *)
Theorem login_failures_are_indistinguishable :
  forall (w : World) (db : Database)
         (unknown wrong : LoginUseCase.LoginInput) (u : gmap string value),
    outage db = None ->
    KnexUserRepository.findByEmail (entity w) (rows db)
                                   (LoginUseCase.email unknown) = None ->
    KnexUserRepository.findByEmail (entity w) (rows db)
                                   (LoginUseCase.email wrong) = Some u ->
    hasher w (LoginUseCase.password wrong) (get "password" u) = inr false ->
    let failure := UnauthorizedException "Invalid credentials" in
    result (run w (LoginUseCase.execute unknown) db)
    = Threw (HttpError failure)
    /\ result (run w (LoginUseCase.execute wrong) db)
       = Threw (HttpError failure)
    /\ result (run w
                   (login (LoginSchema.mkLoginDto
                             (LoginUseCase.email unknown)
                             (LoginUseCase.password unknown))) db)
       = Threw (HttpError failure)
    /\ result (run w
                   (login (LoginSchema.mkLoginDto
                             (LoginUseCase.email wrong)
                             (LoginUseCase.password wrong))) db)
       = Threw (HttpError failure)
    /\ store (run w (LoginUseCase.execute unknown) db)
       = store (run w (LoginUseCase.execute wrong) db)
    /\ getStatus failure = 401%Z.
Proof.
  intros w db unknown wrong u Hup Hnone Hsome Hbad failure.
  rewrite !LoginFacts.run_execute, !ControllerFacts.run_login.
  cbn [LoginSchema.email LoginSchema.password].
  rewrite Hup, Hnone, Hsome, Hbad. repeat split.
Qed.

Lemma login_failures_are_indistinguishable_applied :
  result (run Sample.world
              (LoginUseCase.execute
                 (LoginUseCase.mkLoginInput "nobody@example.com"
                                            "password123"))
              Sample.db)
  = Threw (HttpError (UnauthorizedException "Invalid credentials"))
  /\ result (run Sample.world
                 (LoginUseCase.execute
                    (LoginUseCase.mkLoginInput "user@example.com"
                                               "wrong-password"))
                 Sample.db)
     = Threw (HttpError (UnauthorizedException "Invalid credentials")).
Proof.
  destruct (Knex.where_first "email" "user@example.com" Sample.table)
    as [u |] eqn:Hrow; [| discriminate Hrow].
  destruct (login_failures_are_indistinguishable
              Sample.world Sample.db
              (LoginUseCase.mkLoginInput "nobody@example.com" "password123")
              (LoginUseCase.mkLoginInput "user@example.com" "wrong-password")
              u)
    as (Hunknown & Hwrong & _).
  - reflexivity.
  - reflexivity.
  - cbn [Sample.world entity Sample.db rows LoginUseCase.email].
    unfold KnexUserRepository.findByEmail. rewrite Hrow. reflexivity.
  - injection Hrow as <-. reflexivity.
  - split; [exact Hunknown | exact Hwrong].
Defined.



(** C5, what the code does.  The handler hands the email
    to the use case as it is in the body it was given, and the use case
    looks it up as it is: given [USER@Example.com] while the users table
    has no row under that spelling, the login is refused with
    ['Invalid credentials'] after the one lookup, whatever row there is
    under [user@example.com].  Only [LoginSchema] would turn the email into
    [user@example.com]. *)
Theorem mixed_case_email_is_looked_up_as_sent :
  forall (w : World) (db : Database) (pw : string),
    outage db = None ->
    KnexUserRepository.findByEmail (entity w) (rows db) "USER@Example.com"
    = None ->
    let r := run w (login (LoginSchema.mkLoginDto "USER@Example.com" pw)) db in
    result r
    = Threw (HttpError (UnauthorizedException "Invalid credentials"))
    /\ trace r = [EvFindByEmail "USER@Example.com"]
    /\ (forall isEmail : string -> bool,
          isEmail "USER@Example.com" = true ->
          6 <= Str.js_length pw <= 100 ->
          LoginSchema.safeParse isEmail (credentials "USER@Example.com" pw)
          = inr (LoginSchema.mkLoginDto "user@example.com" pw)).
Proof.
  intros w db pw Hup Hnone r. subst r.
  rewrite ControllerFacts.run_login. cbn [LoginSchema.email].
  rewrite Hup, Hnone. split; [reflexivity |]. split; [reflexivity |].
  intros isEmail Hfmt Hlen.
  apply SchemaFacts.safeParse_inr. eexists. exists "USER@Example.com".
  split; [reflexivity |].
  rewrite get_credentials_email, get_credentials_password.
  cbn [LoginSchema.email LoginSchema.password].
  repeat split; try assumption; try lia; try reflexivity.
  vm_compute. lia.
Qed.

Lemma mixed_case_email_is_looked_up_as_sent_applied :
  let r := run Sample.world
               (login (LoginSchema.mkLoginDto "USER@Example.com"
                                              "password123"))
               Sample.db in
  result r = Threw (HttpError (UnauthorizedException "Invalid credentials"))
  /\ trace r = [EvFindByEmail "USER@Example.com"]
  /\ exists answer,
       result (run Sample.world
                   (login (LoginSchema.mkLoginDto "user@example.com"
                                                  "password123"))
                   Sample.db)
       = Returned answer.
Proof.
  intros r.
  destruct (mixed_case_email_is_looked_up_as_sent
              Sample.world Sample.db "password123")
    as (Hresult & Htrace & _).
  - reflexivity.
  - reflexivity.
  - split; [exact Hresult |]. split; [exact Htrace |].
    eexists. rewrite ControllerFacts.run_login. reflexivity.
Defined.

(** C6, what the code does.  [LoginSchema] finds exactly
    the two issues in the body
    [{ "email": "not-an-email", "password": "ab" }], the email format and
    the minimum password length; but neither the handler nor the use case
    checks anything themselves: handed these two fields, the handler calls
    the use case, which looks [not-an-email] up in the users table. *)
Theorem unvalidated_fields_reach_the_lookup :
  forall (w : World) (db : Database),
    LoginSchema.safeParse Zod.isEmail (credentials "not-an-email" "ab")
    = inl [LoginSchema.issue "email" "Must be a valid email address";
           LoginSchema.issue "password"
                             "Password must be at least 6 characters"]
    /\ exists rest,
         trace (run w (login (LoginSchema.mkLoginDto "not-an-email" "ab")) db)
         = EvFindByEmail "not-an-email" :: rest.
Proof.
  intros w db. split; [reflexivity |].
  rewrite ControllerFacts.run_login. cbn [LoginSchema.email].
  destruct (outage db); [eexists; reflexivity |].
  destruct (KnexUserRepository.findByEmail _ _ _); eexists; reflexivity.
Qed.

(** C2, as the code has it.  The use case passes the email to the lookup
    exactly as it received it, for every input: the run begins with the
    lookup of that very string, and that is its only lookup. *)
Theorem execute_looks_up_email_as_given :
  forall (w : World) (db : Database) (input : LoginUseCase.LoginInput),
    let r := run w (LoginUseCase.execute input) db in
    trace r = [EvFindByEmail (LoginUseCase.email input)]
    \/ exists encrypted,
         trace r = [EvFindByEmail (LoginUseCase.email input);
                    EvCompare (LoginUseCase.password input) encrypted].
Proof.
  intros w db input r. subst r. rewrite LoginFacts.run_execute.
  destruct (outage db); [left; reflexivity |].
  destruct (KnexUserRepository.findByEmail _ _ _);
    [right; eexists; reflexivity | left; reflexivity].
Qed.

(** C2 as stated fails: given [USER@Example.com], the use case asks the
    users table for [USER@Example.com], not for the lowercased and trimmed
    [user@example.com], and rejects the login although the right password
    of the stored [user@example.com] was supplied. *)
Lemma execute_does_not_normalize_email :
  let input := LoginUseCase.mkLoginInput "USER@Example.com" "password123" in
  let r := run Sample.world (LoginUseCase.execute input) Sample.db in
  Str.trim (Str.toLowerCase "USER@Example.com") = "user@example.com"
  /\ trace r = [EvFindByEmail "USER@Example.com"]
  /\ result r
     = Threw (HttpError (UnauthorizedException "Invalid credentials"))
  /\ (exists out,
        result (run Sample.world
                    (LoginUseCase.execute
                       (LoginUseCase.mkLoginInput "user@example.com"
                                                  "password123"))
                    Sample.db)
        = Returned out)
  /\ ~ (forall (w : World) (db : Database)
               (input : LoginUseCase.LoginInput),
          exists rest,
            trace (run w (LoginUseCase.execute input) db)
            = EvFindByEmail
                (Str.trim (Str.toLowerCase (LoginUseCase.email input)))
              :: rest).
Proof.
  intros input r.
  split; [reflexivity |]. split; [reflexivity |]. split; [reflexivity |].
  split.
  - eexists. rewrite LoginFacts.run_execute. reflexivity.
  - intros Hclaim.
    destruct (Hclaim Sample.world Sample.db input) as [rest Hrest].
    discriminate Hrest.
Qed.

End PipelineFacts.


(* ===================================================================== *)
(** * The origin check and the seed at work *)
(* ===================================================================== *)

Module MoreExamples.

Example private_192_168_samples :
  Regex.test Cors.private_192_168 "http://192.168.1.10" = true
  /\ Regex.test Cors.private_192_168 "http://192.168.1.10:3000" = true
  /\ Regex.test Cors.private_192_168 "http://192.168.999.999" = true
  /\ Regex.test Cors.private_192_168 "https://192.168.1.10" = false
  /\ Regex.test Cors.private_192_168 "http://192.168.1234.10" = false
  /\ Regex.test Cors.private_192_168 "http://192.168.1.10:" = false
  /\ Regex.test Cors.private_192_168 "http://192.168.1.10/" = false.
Proof. repeat split. Qed.

Example private_172_samples :
  Regex.test Cors.private_172 "http://172.16.0.1" = true
  /\ Regex.test Cors.private_172 "http://172.31.0.1:80" = true
  /\ Regex.test Cors.private_172 "http://172.15.0.1" = false
  /\ Regex.test Cors.private_172 "http://172.32.0.1" = false
  /\ Regex.test Cors.private_172 "http://172.2.0.1" = false.
Proof. repeat split. Qed.

Example split_samples :
  Cors.split "," "" = [""]
  /\ Cors.split "," "a,b" = ["a"; "b"]
  /\ Cors.split "," "," = [""; ""]
  /\ Cors.split "," "https://a.example, https://b.example"
     = ["https://a.example"; " https://b.example"].
Proof. repeat split. Qed.

Example origin_callback_samples :
  Cors.origin_callback None (Some "https://elsewhere.example") = Cors.Allowed
  /\ Cors.origin_callback (Some "") (Some "https://elsewhere.example")
     = Cors.Refused "Not allowed by CORS"
  /\ Cors.origin_callback (Some "https://a.example,*")
                          (Some "https://elsewhere.example")
     = Cors.Refused "Not allowed by CORS"
  /\ Cors.origin_callback (Some "https://a.example,https://b.example")
                          (Some "https://b.example")
     = Cors.Allowed
  /\ Cors.origin_callback (Some "https://a.example") None = Cors.Allowed
  /\ Cors.origin_callback (Some "https://a.example")
                          (Some "http://10.0.0.7:8080")
     = Cors.Allowed.
Proof. repeat split. Qed.

Example seed_then_lookup :
  KnexUserRepository.findByEmail (fun row => row) Sample.table
                                 "nobody@example.com"
  = None.
Proof. reflexivity. Qed.

End MoreExamples.

(* ===================================================================== *)
(** * Regular expressions: the matcher decides the language *)
(* ===================================================================== *)

Module RegexFacts.
Import Regex.

Lemma nullable_spec (r : re) : nullable r = true <-> lang r [].
Proof.
  induction r as [| | p | r1 IH1 r2 IH2 | r1 IH1 r2 IH2 | r IH]; cbn.
  - split; [discriminate | tauto].
  - tauto.
  - split; [discriminate | intros (c & Hc & _); discriminate Hc].
  - rewrite andb_true_iff, IH1, IH2. split.
    + intros [H1 H2]. exists [], []. auto.
    + intros (s1 & s2 & Happ & H1 & H2).
      symmetry in Happ. apply app_eq_nil in Happ as [-> ->]. auto.
  - rewrite orb_true_iff, IH1, IH2. tauto.
  - split; [| reflexivity]. intros _. exists []. split; [reflexivity | constructor].
Qed.

Lemma lang_star_cons (r : re) (c : ascii) (s : list ascii) :
  lang (Star r) (c :: s)
  <-> exists s1 s2, s = (s1 ++ s2)%list /\ lang r (c :: s1) /\ lang (Star r) s2.
Proof.
  cbn. split.
  - intros (pieces & Hcat & Hall). revert Hcat.
    induction Hall as [| piece pieces Hpiece Hall IH]; cbn.
    + discriminate.
    + destruct piece as [| c' piece]; cbn; [exact IH |].
      intros [= <- ->]. exists piece, (concat pieces).
      split; [reflexivity |]. split; [exact Hpiece |].
      exists pieces. auto.
  - intros (s1 & s2 & -> & H1 & pieces & -> & Hall).
    exists ((c :: s1) :: pieces). split; [reflexivity |].
    constructor; assumption.
Qed.

Lemma deriv_spec (c : ascii) (r : re) (s : list ascii) :
  lang (deriv c r) s <-> lang r (c :: s).
Proof.
  revert s.
  induction r as [| | p | r1 IH1 r2 IH2 | r1 IH1 r2 IH2 | r IH]; intros s.
  - reflexivity.
  - cbn. split; [tauto | discriminate].
  - cbn. destruct (p c) eqn:Hp; cbn; split.
    + intros ->. exists c. auto.
    + intros (c' & [= <- ->] & _). reflexivity.
    + tauto.
    + intros (c' & [= <- ->] & Hp'). congruence.
  - assert (Hcons :
              lang (Cat r1 r2) (c :: s)
              <-> (lang r1 [] /\ lang r2 (c :: s))
                  \/ exists s1 s2, s = (s1 ++ s2)%list
                                   /\ lang r1 (c :: s1) /\ lang r2 s2).
    { cbn. split.
      - intros (s1 & s2 & Happ & H1 & H2).
        destruct s1 as [| c' s1]; cbn in Happ.
        + left. subst s2. auto.
        + injection Happ as <- ->. right. exists s1, s2. auto.
      - intros [[H1 H2] | (s1 & s2 & -> & H1 & H2)].
        + exists [], (c :: s). auto.
        + exists (c :: s1), s2. auto. }
    rewrite Hcons. cbn [deriv].
    destruct (nullable r1) eqn:Hnull; cbn [lang].
    + rewrite IH2. apply nullable_spec in Hnull. split.
      * intros [(s1 & s2 & -> & H1 & H2) | H2]; [right | left; auto].
        exists s1, s2. rewrite <- IH1. auto.
      * intros [[_ H2] | (s1 & s2 & -> & H1 & H2)]; [right; auto | left].
        exists s1, s2. rewrite IH1. auto.
    + split.
      * intros (s1 & s2 & -> & H1 & H2). right.
        exists s1, s2. rewrite <- IH1. auto.
      * intros [[H1 _] | (s1 & s2 & -> & H1 & H2)].
        -- apply nullable_spec in H1. congruence.
        -- exists s1, s2. rewrite IH1. auto.
  - cbn. rewrite IH1, IH2. reflexivity.
  - rewrite lang_star_cons. cbn [deriv lang]. split.
    + intros (s1 & s2 & -> & H1 & H2). exists s1, s2. rewrite <- IH. auto.
    + intros (s1 & s2 & -> & H1 & H2). exists s1, s2. rewrite IH. auto.
Qed.

(** The derivative matcher accepts exactly the strings of the language. *)
Lemma matches_spec (r : re) (s : list ascii) :
  matches r s = true <-> lang r s.
Proof.
  revert r. induction s as [| c s IH]; intros r; cbn.
  - apply nullable_spec.
  - rewrite IH. apply deriv_spec.
Qed.

Lemma lang_lit (w : string) (s : list ascii) :
  lang (lit w) s <-> s = list_ascii_of_string w.
Proof.
  revert s. induction w as [| c w IH]; intros s; cbn.
  - reflexivity.
  - split.
    + intros (s1 & s2 & -> & (c' & -> & Hc) & H2).
      apply Ascii.eqb_eq in Hc as <-. apply IH in H2 as ->. reflexivity.
    + intros ->. exists [c], (list_ascii_of_string w).
      split; [reflexivity |]. split; [| apply IH; reflexivity].
      exists c. split; [reflexivity | apply Ascii.eqb_refl].
Qed.

Lemma lang_star_chr (p : ascii -> bool) (s : list ascii) :
  lang (Star (Chr p)) s <-> Forall (fun c => p c = true) s.
Proof.
  induction s as [| c s IH].
  - split; [constructor |]. intros _. exists []. split; [reflexivity | constructor].
  - rewrite lang_star_cons. split.
    + intros (s1 & s2 & -> & (c' & [= <- ->] & Hp) & H2). cbn.
      constructor; [exact Hp |]. apply IH. exact H2.
    + intros H. inversion H as [| c' s' Hp Hrest]; subst.
      exists [], s. split; [reflexivity |]. split; [| apply IH; exact Hrest].
      exists c. auto.
Qed.

Lemma lang_plus_chr (p : ascii -> bool) (s : list ascii) :
  lang (plus (Chr p)) s
  <-> 1 <= length s /\ Forall (fun c => p c = true) s.
Proof.
  unfold plus. cbn [lang]. split.
  - intros (s1 & s2 & -> & (c & -> & Hp) & H2).
    apply lang_star_chr in H2. cbn. split; [lia |]. constructor; assumption.
  - intros [Hlen H]. destruct s as [| c s]; cbn in Hlen; [lia |].
    inversion H as [| c' s' Hp Hrest]; subst.
    exists [c], s. split; [reflexivity |].
    split; [exists c; auto | apply lang_star_chr; exact Hrest].
Qed.

Lemma lang_rep_1_3_chr (p : ascii -> bool) (s : list ascii) :
  lang (rep_1_3 (Chr p)) s
  <-> 1 <= length s <= 3 /\ Forall (fun c => p c = true) s.
Proof.
  unfold rep_1_3, opt. cbn [lang]. split.
  - intros (s1 & s2 & -> & (c1 & -> & Hp1) & H2).
    destruct H2 as [(s3 & s4 & -> & (c2 & -> & Hp2) & H4) | ->].
    + destruct H4 as [(c3 & -> & Hp3) | ->]; cbn; split; try lia;
        repeat constructor; assumption.
    + cbn. split; [lia |]. repeat constructor; assumption.
  - intros [Hlen H].
    destruct s as [| c1 [| c2 [| c3 [| c4 s]]]]; cbn in Hlen; try lia.
    + inversion H as [| ? ? Hp1 _]; subst.
      exists [c1], []. split; [reflexivity |]. split; [exists c1; auto |].
      right. reflexivity.
    + inversion H as [| ? ? Hp1 H']; subst.
      inversion H' as [| ? ? Hp2 _]; subst.
      exists [c1], [c2]. split; [reflexivity |]. split; [exists c1; auto |].
      left. exists [c2], []. split; [reflexivity |].
      split; [exists c2; auto | right; reflexivity].
    + inversion H as [| ? ? Hp1 H']; subst.
      inversion H' as [| ? ? Hp2 H'']; subst.
      inversion H'' as [| ? ? Hp3 _]; subst.
      exists [c1], [c2; c3]. split; [reflexivity |]. split; [exists c1; auto |].
      left. exists [c2], [c3]. split; [reflexivity |].
      split; [exists c2; auto | left; exists c3; auto].
Qed.

End RegexFacts.

(* ===================================================================== *)
(** * Properties of the CORS origin check *)
(* ===================================================================== *)

Module CorsFacts.
Import Regex Cors.

Lemma list_of_app (s1 s2 : string) :
  list_ascii_of_string (s1 ++ s2)
  = (list_ascii_of_string s1 ++ list_ascii_of_string s2)%list.
Proof.
  induction s1 as [| c s1 IH]; simpl; [reflexivity | rewrite IH; reflexivity].
Qed.

Lemma length_list_of (s : string) :
  length (list_ascii_of_string s) = String.length s.
Proof. induction s as [| c s IH]; cbn; [reflexivity | rewrite IH; reflexivity]. Qed.

Lemma list_of_inj (s1 s2 : string) :
  list_ascii_of_string s1 = list_ascii_of_string s2 -> s1 = s2.
Proof.
  intros H. apply (f_equal string_of_list_ascii) in H.
  rewrite !string_of_list_ascii_of_string in H. exact H.
Qed.

Lemma list_of_string_of (l : list ascii) :
  list_ascii_of_string (string_of_list_ascii l) = l.
Proof. apply list_ascii_of_string_of_list_ascii. Qed.

Lemma lang_cat_lit (w : string) (r : re) (l : list ascii) :
  lang (Cat (lit w) r) l
  <-> exists rest, l = (list_ascii_of_string w ++ rest)%list /\ lang r rest.
Proof.
  cbn [lang]. split.
  - intros (s1 & s2 & -> & H1 & H2). apply RegexFacts.lang_lit in H1 as ->.
    exists s2. auto.
  - intros (rest & -> & H). exists (list_ascii_of_string w), rest.
    split; [reflexivity |]. split; [apply RegexFacts.lang_lit; reflexivity | exact H].
Qed.

Lemma lang_cat_char (c : ascii) (r : re) (l : list ascii) :
  lang (Cat (char c) r) l <-> exists rest, l = c :: rest /\ lang r rest.
Proof.
  cbn [lang char]. split.
  - intros (s1 & s2 & -> & (c' & -> & Hc) & H2).
    apply Ascii.eqb_eq in Hc as <-. exists s2. auto.
  - intros (rest & -> & H). exists [c], rest. split; [reflexivity |].
    split; [| exact H]. exists c. split; [reflexivity | apply Ascii.eqb_refl].
Qed.

Lemma lang_octet (l : list ascii) :
  lang octet l <-> exists a, l = list_ascii_of_string a /\ is_octet a.
Proof.
  unfold octet, digit. rewrite RegexFacts.lang_rep_1_3_chr. split.
  - intros [Hlen Hall]. exists (string_of_list_ascii l).
    rewrite list_of_string_of. split; [reflexivity |].
    unfold is_octet, digits.
    rewrite <- length_list_of, list_of_string_of. auto.
  - intros (a & -> & Hlen & Hall). rewrite length_list_of. auto.
Qed.

Lemma lang_cat_octet (r : re) (l : list ascii) :
  lang (Cat octet r) l
  <-> exists a rest,
        l = (list_ascii_of_string a ++ rest)%list /\ is_octet a /\ lang r rest.
Proof.
  cbn [lang]. split.
  - intros (s1 & s2 & -> & H1 & H2). apply lang_octet in H1 as (a & -> & Ha).
    exists a, s2. auto.
  - intros (a & rest & -> & Ha & H). exists (list_ascii_of_string a), rest.
    split; [reflexivity |]. split; [apply lang_octet; eauto | exact H].
Qed.

Lemma lang_port (l : list ascii) :
  lang port l <-> exists pt, l = list_ascii_of_string pt /\ is_port pt.
Proof.
  unfold port, opt.
  change (lang (Cat (char ":") (plus digit)) l \/ l = []
          <-> exists pt, l = list_ascii_of_string pt /\ is_port pt).
  rewrite lang_cat_char. split.
  - intros [(rest & -> & H) | ->].
    + apply RegexFacts.lang_plus_chr in H as [Hlen Hall].
      exists (String ":" (string_of_list_ascii rest)). cbn.
      rewrite list_of_string_of. split; [reflexivity |].
      right. exists (string_of_list_ascii rest). split; [reflexivity |].
      unfold digits. rewrite <- length_list_of, list_of_string_of. auto.
    + exists "". split; [reflexivity | left; reflexivity].
  - intros (pt & -> & [-> | (d & -> & Hlen & Hall)]).
    + right. reflexivity.
    + left. exists (list_ascii_of_string d). split; [reflexivity |].
      apply RegexFacts.lang_plus_chr. rewrite length_list_of. auto.
Qed.

(** The tail shared by the three patterns:
    an octet, a dot, an octet and the optional port. *)
Lemma lang_two_octets_port (l : list ascii) :
  lang (seq [octet; char "."; octet; port]) l
  <-> exists a b pt,
        l = list_ascii_of_string (a ++ "." ++ b ++ pt)
        /\ is_octet a /\ is_octet b /\ is_port pt.
Proof.
  cbn [seq]. rewrite lang_cat_octet. split.
  - intros (a & rest & -> & Ha & H).
    apply lang_cat_char in H as (rest' & -> & H).
    apply lang_cat_octet in H as (b & rest'' & -> & Hb & H).
    apply lang_port in H as (pt & -> & Hpt).
    exists a, b, pt. rewrite !list_of_app. auto.
  - intros (a & b & pt & -> & Ha & Hb & Hpt).
    exists a, (list_ascii_of_string ("." ++ b ++ pt)).
    rewrite list_of_app. split; [reflexivity |]. split; [exact Ha |].
    apply lang_cat_char. exists (list_ascii_of_string (b ++ pt)).
    split; [reflexivity |].
    apply lang_cat_octet. exists b, (list_ascii_of_string pt).
    rewrite list_of_app. split; [reflexivity |]. split; [exact Hb |].
    apply lang_port. eauto.
Qed.

Lemma digit_69_cases (c : ascii) :
  Str.between 54 57 c = true -> In c ["6"; "7"; "8"; "9"]%char.
Proof.
  destruct c as [[] [] [] [] [] [] [] []]; cbn; intros H;
    try discriminate H; tauto.
Qed.

Lemma digit_01_cases (c : ascii) :
  Str.between 48 49 c = true -> In c ["0"; "1"]%char.
Proof.
  destruct c as [[] [] [] [] [] [] [] []]; cbn; intros H;
    try discriminate H; tauto.
Qed.

Lemma digit_cases (c : ascii) :
  Str.is_digit c = true
  -> In c ["0"; "1"; "2"; "3"; "4"; "5"; "6"; "7"; "8"; "9"]%char.
Proof.
  destruct c as [[] [] [] [] [] [] [] []]; cbn; intros H;
    try discriminate H; tauto.
Qed.

Lemma lang_second_octet_172 (l : list ascii) :
  lang second_octet_172 l
  <-> exists x,
        l = list_ascii_of_string x
        /\ In x ["16"; "17"; "18"; "19"; "20"; "21"; "22"; "23";
                 "24"; "25"; "26"; "27"; "28"; "29"; "30"; "31"].
Proof.
  split.
  - unfold second_octet_172, digit.
    intros [H | [H | H]];
      apply lang_cat_char in H as (rest & -> & (c & -> & Hc)).
    + apply digit_69_cases in Hc. cbn in Hc.
      destruct Hc as [<- | [<- | [<- | [<- | []]]]];
        [exists "16" | exists "17" | exists "18" | exists "19"];
        (split; [reflexivity | cbn; tauto]).
    + apply digit_cases in Hc. cbn in Hc.
      destruct Hc as [<- | [<- | [<- | [<- | [<- | [<- | [<- | [<- | [<- | [<- | []]]]]]]]]]];
        [exists "20" | exists "21" | exists "22" | exists "23" | exists "24"
         | exists "25" | exists "26" | exists "27" | exists "28" | exists "29"];
        (split; [reflexivity | cbn; tauto]).
    + apply digit_01_cases in Hc. cbn in Hc.
      destruct Hc as [<- | [<- | []]]; [exists "30" | exists "31"];
        (split; [reflexivity | cbn; tauto]).
  - intros (x & -> & Hx). apply RegexFacts.matches_spec. cbn in Hx.
    repeat (destruct Hx as [<- | Hx]; [reflexivity |]). contradiction.
Qed.

Lemma append_cons (c : ascii) (s1 s2 : string) :
  String c s1 ++ s2 = String c (s1 ++ s2).
Proof. reflexivity. Qed.

Lemma append_nil (s : string) : "" ++ s = s.
Proof. reflexivity. Qed.

Lemma prefix_spec (p s : string) :
  String.prefix p s = true <-> exists post, s = p ++ post.
Proof.
  revert s. induction p as [| c p IH]; intros s.
  - split; [| destruct s; reflexivity]. intros _. exists s. reflexivity.
  - destruct s as [| c' s]; cbn.
    + split; [discriminate | intros (post & H); discriminate H].
    + destruct (ascii_dec c c') as [<- | Hne].
      * rewrite IH. split; intros (post & H); exists post;
          rewrite append_cons in *; congruence.
      * split; [discriminate | intros (post & H)].
        rewrite append_cons in H. injection H as H _. congruence.
Qed.

(** [includes] finds the needle exactly when it occurs somewhere. *)
Lemma includes_spec (needle hay : string) :
  includes needle hay = true <-> exists pre post, hay = pre ++ needle ++ post.
Proof.
  induction hay as [| c hay IH]; cbn [includes]; rewrite orb_true_iff, prefix_spec.
  - split.
    + intros [(post & H) | H]; [| discriminate H]. exists "", post. exact H.
    + intros (pre & post & H). left.
      destruct pre as [| c pre]; [| rewrite append_cons in H; discriminate H].
      exists post. exact H.
  - rewrite IH. split.
    + intros [(post & H) | (pre & post & H)].
      * exists "", post. exact H.
      * exists (String c pre), post. rewrite append_cons, H. reflexivity.
    + intros (pre & post & H). destruct pre as [| c' pre].
      * left. exists post. exact H.
      * right. rewrite append_cons in H. injection H as _ H.
        exists pre, post. exact H.
Qed.

Lemma split_nonempty (sep : ascii) (s : string) : split sep s <> [].
Proof.
  destruct s as [| c s]; cbn; [discriminate |].
  destruct (split sep s); [discriminate |].
  destruct (Ascii.eqb c sep); discriminate.
Qed.

Lemma test_lang (r : re) (o : string) :
  test r o = true <-> lang r (list_ascii_of_string o).
Proof. apply RegexFacts.matches_spec. Qed.

Lemma list_includes_spec (l : list string) (o : string) :
  list_includes l o = true <-> In o l.
Proof.
  unfold list_includes. rewrite existsb_exists. split.
  - intros (x & Hin & Heq). apply String.eqb_eq in Heq as ->. exact Hin.
  - intros Hin. exists o. split; [exact Hin | apply String.eqb_refl].
Qed.

Lemma split_star_comma (rest : string) :
  exists pieces, split "," ("*," ++ rest) = "*" :: pieces.
Proof.
  rewrite !append_cons, append_nil. cbn [split].
  destruct (split "," rest) as [| piece pieces] eqn:Hrest.
  - exfalso. exact (split_nonempty _ _ Hrest).
  - cbn. eexists. reflexivity.
Qed.

Lemma split_cons (sep c : ascii) (s : string) :
  exists piece pieces,
    split sep s = piece :: pieces
    /\ split sep (String c s)
       = if Ascii.eqb c sep then EmptyString :: piece :: pieces
         else String c piece :: pieces.
Proof.
  destruct (split sep s) as [| piece pieces] eqn:Hsplit.
  - exfalso. exact (split_nonempty _ _ Hsplit).
  - exists piece, pieces. split; [reflexivity |]. cbn [split].
    rewrite Hsplit. reflexivity.
Qed.

(** X21.  The allow list is [CORS_ORIGIN] cut at its commas and nothing
    else: it is never empty once the variable is set, no entry contains a
    comma, and joining the entries with commas gives the variable back, so
    spaces around an entry belong to the entry. *)
Theorem allow_list_is_comma_separated :
  forall v : string,
    allowedOrigins (Some v) <> []
    /\ String.concat "," (allowedOrigins (Some v)) = v
    /\ Forall (fun entry => ~ In ","%char (list_ascii_of_string entry))
              (allowedOrigins (Some v)).
Proof.
  intros v. cbn [allowedOrigins].
  split; [apply split_nonempty |].
  induction v as [| c v IH].
  - split; [reflexivity |]. repeat constructor. intros [].
  - destruct IH as [IHjoin IHcomma].
    destruct (split_cons "," c v) as (piece & pieces & Hv & ->).
    rewrite Hv in IHjoin. rewrite Hv in IHcomma.
    pose proof IHcomma as Hall.
    apply Forall_cons in Hall as [Hpiece Hpieces].
    destruct (Ascii.eqb_spec c ",") as [-> | Hc].
    + split.
      * change (String.concat "," ("" :: piece :: pieces))
          with ("" ++ "," ++ String.concat "," (piece :: pieces)).
        rewrite IHjoin. reflexivity.
      * constructor; [intros [] | exact IHcomma].
    + split.
      * destruct pieces as [| next pieces].
        -- cbn in IHjoin |- *. rewrite IHjoin. reflexivity.
        -- change (String.concat "," (String c piece :: next :: pieces))
             with (String c piece ++ ","
                   ++ String.concat "," (next :: pieces)).
           change (String.concat "," (piece :: next :: pieces))
             with (piece ++ "," ++ String.concat "," (next :: pieces))
             in IHjoin.
           rewrite append_cons, IHjoin. reflexivity.
      * constructor; [| exact Hpieces].
        cbn. intros [Heq | Hin]; [congruence | exact (Hpiece Hin)].
Qed.

(** X1.  The three private-network patterns accept exactly the origins
    spelled [http://192.168.A.B], [http://10.A.B.C] and [http://172.X.A.B]
    with [X] from 16 to 31, where [A], [B], [C] are any one to three digits
    (not limited to 255), optionally followed by a colon and a port number
    of at least one digit; the scheme must be plain [http] and nothing may
    follow the port. *)
Theorem private_network_patterns_shape :
  forall o : string,
    (test private_192_168 o = true
     <-> exists a b pt,
           o = "http://192.168." ++ a ++ "." ++ b ++ pt
           /\ is_octet a /\ is_octet b /\ is_port pt)
    /\ (test private_10 o = true
        <-> exists a b c pt,
              o = "http://10." ++ a ++ "." ++ b ++ "." ++ c ++ pt
              /\ is_octet a /\ is_octet b /\ is_octet c /\ is_port pt)
    /\ (test private_172 o = true
        <-> exists x a b pt,
              o = "http://172." ++ x ++ "." ++ a ++ "." ++ b ++ pt
              /\ In x ["16"; "17"; "18"; "19"; "20"; "21"; "22"; "23";
                       "24"; "25"; "26"; "27"; "28"; "29"; "30"; "31"]
              /\ is_octet a /\ is_octet b /\ is_port pt).
Proof.
  intros o. rewrite !test_lang. split; [| split].
  - change private_192_168
      with (Cat (lit "http://192.168.") (seq [octet; char "."; octet; port])).
    rewrite lang_cat_lit. split.
    + intros (rest & Ho & H).
      apply lang_two_octets_port in H as (a & b & pt & -> & Ha & Hb & Hpt).
      exists a, b, pt. rewrite <- list_of_app in Ho.
      apply list_of_inj in Ho. auto.
    + intros (a & b & pt & -> & Ha & Hb & Hpt).
      exists (list_ascii_of_string (a ++ "." ++ b ++ pt)).
      split; [apply list_of_app |].
      apply lang_two_octets_port. exists a, b, pt. auto.
  - change private_10
      with (Cat (lit "http://10.")
                (Cat octet (Cat (char ".")
                                (seq [octet; char "."; octet; port])))).
    rewrite lang_cat_lit. split.
    + intros (rest & Ho & H).
      apply lang_cat_octet in H as (a & rest1 & -> & Ha & H).
      apply lang_cat_char in H as (rest2 & -> & H).
      apply lang_two_octets_port in H as (b & c & pt & -> & Hb & Hc & Hpt).
      exists a, b, c, pt. split; [| auto].
      apply list_of_inj. rewrite Ho, !list_of_app. reflexivity.
    + intros (a & b & c & pt & -> & Ha & Hb & Hc & Hpt).
      exists (list_ascii_of_string (a ++ "." ++ b ++ "." ++ c ++ pt)).
      split; [apply list_of_app |].
      apply lang_cat_octet.
      exists a, (list_ascii_of_string ("." ++ b ++ "." ++ c ++ pt)).
      split; [apply list_of_app |]. split; [exact Ha |].
      apply lang_cat_char.
      exists (list_ascii_of_string (b ++ "." ++ c ++ pt)).
      split; [reflexivity |].
      apply lang_two_octets_port. exists b, c, pt. auto.
  - change private_172
      with (Cat (lit "http://172.")
                (Cat second_octet_172
                     (Cat (char ".") (seq [octet; char "."; octet; port])))).
    rewrite lang_cat_lit. split.
    + intros (rest & Ho & (s1 & s2 & -> & Hx & H)).
      apply lang_second_octet_172 in Hx as (x & -> & Hx).
      apply lang_cat_char in H as (rest2 & -> & H).
      apply lang_two_octets_port in H as (a & b & pt & -> & Ha & Hb & Hpt).
      exists x, a, b, pt. split; [| auto].
      apply list_of_inj. rewrite Ho, !list_of_app. reflexivity.
    + intros (x & a & b & pt & -> & Hx & Ha & Hb & Hpt).
      exists (list_ascii_of_string (x ++ "." ++ a ++ "." ++ b ++ pt)).
      split; [apply list_of_app |].
      exists (list_ascii_of_string x),
             (list_ascii_of_string ("." ++ a ++ "." ++ b ++ pt)).
      split; [apply list_of_app |].
      split; [apply lang_second_octet_172; eauto |].
      apply lang_cat_char.
      exists (list_ascii_of_string (a ++ "." ++ b ++ pt)).
      split; [reflexivity |].
      apply lang_two_octets_port. exists a, b, pt. auto.
Qed.

(** X2.  With [CORS_ORIGIN] unset, or with an allow list whose first entry
    is [*], every origin is allowed. *)
Theorem cors_open_when_unset_or_star :
  forall (CORS_ORIGIN origin : option string),
    CORS_ORIGIN = None
    \/ CORS_ORIGIN = Some "*"
    \/ (exists rest, CORS_ORIGIN = Some ("*," ++ rest)) ->
    origin_callback CORS_ORIGIN origin = Allowed.
Proof.
  intros env origin [-> | [-> | (rest & ->)]]; unfold origin_callback.
  - destruct (exempt origin || _); reflexivity.
  - destruct (exempt origin || _); reflexivity.
  - unfold allowedOrigins.
    destruct (split_star_comma rest) as (pieces & ->).
    destruct (exempt origin || _); reflexivity.
Qed.

Lemma cors_open_when_unset_or_star_applied :
  origin_callback (Some "*,https://app.example.com")
                  (Some "https://elsewhere.example.org")
  = Allowed.
Proof.
  apply cors_open_when_unset_or_star.
  right. right. exists "https://app.example.com". reflexivity.
Defined.

(** X3.  Some origins are allowed whatever the allow list says: a request
    without origin or with an empty or [null] origin, any origin in which
    [localhost] or [127.0.0.1] occurs anywhere, and any origin matching one
    of the private-network patterns. *)
Theorem cors_exemptions_ignore_allow_list :
  forall (CORS_ORIGIN origin : option string),
    origin = None
    \/ origin = Some ""
    \/ origin = Some "null"
    \/ (exists pre post, origin = Some (pre ++ "localhost" ++ post))
    \/ (exists pre post, origin = Some (pre ++ "127.0.0.1" ++ post))
    \/ (exists o,
          origin = Some o
          /\ (test private_192_168 o = true
              \/ test private_10 o = true
              \/ test private_172 o = true)) ->
    origin_callback CORS_ORIGIN origin = Allowed.
Proof.
  intros env origin H.
  assert (Hexempt : exempt origin = true).
  { destruct H as [-> | [-> | [-> | [(pre & post & ->) | [(pre & post & ->) | (o & -> & H)]]]]];
      try reflexivity; unfold exempt.
    - assert (Hinc : includes "localhost" (pre ++ "localhost" ++ post) = true)
        by (apply includes_spec; eauto).
      rewrite Hinc, !orb_true_r. reflexivity.
    - assert (Hinc : includes "127.0.0.1" (pre ++ "127.0.0.1" ++ post) = true)
        by (apply includes_spec; eauto).
      rewrite Hinc, !orb_true_r. reflexivity.
    - destruct H as [-> | [-> | ->]]; rewrite !orb_true_r; reflexivity. }
  unfold origin_callback. rewrite Hexempt. reflexivity.
Qed.

Lemma cors_exemptions_ignore_allow_list_applied :
  origin_callback (Some "https://app.example.com")
                  (Some "https://localhost.elsewhere.example.org")
  = Allowed.
Proof.
  apply cors_exemptions_ignore_allow_list.
  right. right. right. left.
  exists "https://", ".elsewhere.example.org". reflexivity.
Defined.

(** X4.  An origin is refused, always with the message
    [Not allowed by CORS], exactly when [CORS_ORIGIN] is set, the first of
    its comma-separated entries is not [*], the origin is not among the
    entries as written, and none of the exemptions applies.  A set but
    empty [CORS_ORIGIN] counts as set. *)
Theorem cors_refusal_characterised :
  forall (CORS_ORIGIN origin : option string) (message : string),
    origin_callback CORS_ORIGIN origin = Refused message
    <-> message = "Not allowed by CORS"
        /\ exists v o,
             CORS_ORIGIN = Some v
             /\ origin = Some o
             /\ exempt (Some o) = false
             /\ ~ In o (split "," v)
             /\ head (split "," v) <> Some "*".
Proof.
  intros env origin message. unfold origin_callback. split.
  - destruct (exempt origin) eqn:Hexempt; cbn [orb]; [discriminate |].
    destruct origin as [o |]; [| discriminate Hexempt].
    destruct (list_includes (allowedOrigins env) o) eqn:Hlisted;
      [discriminate |].
    destruct env as [v |]; cbn [allowedOrigins] in *; [| discriminate].
    destruct (split "," v) as [| first pieces] eqn:Hsplit;
      [discriminate |].
    cbn [length Nat.eqb orb].
    destruct (String.eqb first "*") eqn:Hstar; [discriminate |].
    intros [= <-]. split; [reflexivity |].
    exists v, o. rewrite Hsplit. repeat split; auto.
    + intros Hin. apply list_includes_spec in Hin. congruence.
    + cbn. intros [= ->]. discriminate Hstar.
  - intros (-> & v & o & -> & -> & Hexempt & Hnot & Hhead).
    rewrite Hexempt. cbn [orb allowedOrigins].
    destruct (list_includes (split "," v) o) eqn:Hlisted.
    { apply list_includes_spec in Hlisted. contradiction. }
    destruct (split "," v) as [| first pieces] eqn:Hsplit.
    { exfalso. exact (split_nonempty _ _ Hsplit). }
    cbn [length Nat.eqb orb].
    destruct (String.eqb first "*") eqn:Hstar; [| reflexivity].
    apply String.eqb_eq in Hstar as ->. exfalso. apply Hhead. reflexivity.
Qed.

End CorsFacts.

(* ===================================================================== *)
(** * Properties of the users repository and of the seed *)
(* ===================================================================== *)

Module RepositoryFacts.

Lemma is_str_spec (s : string) (v : option value) :
  is_str s v = true <-> v = Some (VStr s).
Proof.
  unfold is_str.
  destruct v as [[| | b | n | s' | items | props] |];
    try (split; intros H; discriminate H).
  rewrite String.eqb_eq. split; [intros -> | intros [= ->]]; reflexivity.
Qed.

Lemma is_str_false (s : string) (v : option value) :
  is_str s v = false <-> v <> Some (VStr s).
Proof.
  rewrite <- is_str_spec. destruct (is_str s v); split;
    congruence.
Qed.

(** [find] returns the first element that passes the test. *)
Lemma find_first {A : Type} (f : A -> bool) (l : list A) (x : A) :
  List.find f l = Some x
  <-> exists before after,
        l = (before ++ x :: after)%list
        /\ f x = true
        /\ Forall (fun y => f y = false) before.
Proof.
  induction l as [| y l IH]; cbn.
  - split; [discriminate |].
    intros (before & after & H & _). destruct before; discriminate H.
  - destruct (f y) eqn:Hy.
    + split.
      * intros [= ->]. exists [], l. auto.
      * intros (before & after & H & Hx & Hall).
        destruct before as [| z before]; cbn in H.
        -- congruence.
        -- injection H as -> _. inversion Hall; congruence.
    + rewrite IH. split.
      * intros (before & after & -> & Hx & Hall).
        exists (y :: before), after. auto.
      * intros (before & after & H & Hx & Hall).
        destruct before as [| z before]; cbn in H.
        -- injection H as -> _. congruence.
        -- injection H as _ ->. inversion Hall; subst.
           exists before, after. auto.
Qed.

Lemma find_none {A : Type} (f : A -> bool) (l : list A) :
  List.find f l = None <-> Forall (fun y => f y = false) l.
Proof.
  induction l as [| y l IH]; cbn.
  - split; [constructor | reflexivity].
  - destruct (f y) eqn:Hy.
    + split; [discriminate | intros H; inversion H; congruence].
    + rewrite IH. split; [constructor; assumption | intros H; inversion H; assumption].
Qed.

Lemma find_app_none {A : Type} (f : A -> bool) (l1 l2 : list A) :
  List.find f l1 = None -> List.find f (l1 ++ l2) = List.find f l2.
Proof.
  induction l1 as [| y l1 IH]; cbn; [reflexivity |].
  destruct (f y); [discriminate | exact IH].
Qed.

Lemma find_app_some {A : Type} (f : A -> bool) (l1 l2 : list A) (x : A) :
  List.find f l1 = Some x -> List.find f (l1 ++ l2) = Some x.
Proof.
  induction l1 as [| y l1 IH]; cbn; [discriminate |].
  destruct (f y); [auto | exact IH].
Qed.

Section WithEntity.

Variable newUser : gmap string value -> gmap string value.

Lemma where_first_none (col key : string) (table : Knex.Table) :
  Knex.where_first col key table = None
  <-> Forall (fun row => row !! col <> Some (VStr key)) table.
Proof.
  unfold Knex.where_first. rewrite find_none.
  apply Forall_iff. intros row. apply is_str_false.
Qed.

Lemma where_first_some (col key : string) (table : Knex.Table)
  (row : gmap string value) :
  Knex.where_first col key table = Some row
  <-> exists before after,
        table = (before ++ row :: after)%list
        /\ row !! col = Some (VStr key)
        /\ Forall (fun r => r !! col <> Some (VStr key)) before.
Proof.
  unfold Knex.where_first. rewrite find_first.
  split; intros (before & after & -> & Hrow & Hall); exists before, after;
    (split; [reflexivity |]); (split; [apply is_str_spec; exact Hrow |]);
    (eapply Forall_impl; [exact Hall | intros r; apply is_str_false]).
Qed.

(** X5.  [findByEmail] answers with the oldest row whose [email] column is
    the given string, handed to the entity constructor, and with [null]
    exactly when no row has it. *)
Theorem repository_lookup_first_match :
  forall (table : Knex.Table) (key : string),
    (KnexUserRepository.findByEmail newUser table key = None
     <-> Forall (fun row => row !! "email" <> Some (VStr key)) table)
    /\ (forall row,
          Knex.where_first "email" key table = Some row
          <-> exists before after,
                table = (before ++ row :: after)%list
                /\ row !! "email" = Some (VStr key)
                /\ Forall (fun r => r !! "email" <> Some (VStr key)) before)
    /\ KnexUserRepository.findByEmail newUser table key
       = newUser <$> Knex.where_first "email" key table.
Proof.
  intros table key.
  split; [| split].
  - unfold KnexUserRepository.findByEmail. rewrite <- where_first_none.
    destruct (Knex.where_first "email" key table); split; congruence.
  - intros row. apply where_first_some.
  - unfold KnexUserRepository.findByEmail.
    destruct (Knex.where_first "email" key table); reflexivity.
Qed.

(** X6.  [create] appends exactly one row, made of the given data with both
    timestamps set to the current time (overriding any given) and a
    generated [id] unless one was given; the password is stored as given.
    When no row had the new email, [findByEmail] then finds the new row,
    and lookups of every other email answer as before. *)
Theorem create_then_findByEmail :
  forall (uuid now : value) (userData : gmap string value)
         (table : Knex.Table) (email : string),
    userData !! "email" = Some (VStr email) ->
    Knex.where_first "email" email table = None ->
    exists stored : gmap string value,
      snd (KnexUserRepository.create newUser uuid now userData table)
      = (table ++ [stored])%list
      /\ fst (KnexUserRepository.create newUser uuid now userData table)
         = newUser {[ "id" := default uuid (userData !! "id");
                      "email" := VStr email;
                      "password" := get "password" userData;
                      "name" := get "name" userData;
                      "createdAt" := now;
                      "updatedAt" := now ]}
      /\ stored !! "id" = Some (default uuid (userData !! "id"))
      /\ stored !! "created_at" = Some now
      /\ stored !! "updated_at" = Some now
      /\ stored !! "password" = userData !! "password"
      /\ KnexUserRepository.findByEmail newUser
           (snd (KnexUserRepository.create newUser uuid now userData table))
           email
         = Some (newUser stored)
      /\ (forall other : string,
            other <> email ->
            KnexUserRepository.findByEmail newUser
              (snd (KnexUserRepository.create newUser uuid now userData table))
              other
            = KnexUserRepository.findByEmail newUser table other).
Proof.
  intros uuid now userData table email Hemail Hfresh.
  unfold KnexUserRepository.create, Knex.insert_returning.
  set (row := <["updated_at" := now]> (<["created_at" := now]> userData)).
  assert (Hrow : forall k, k <> "updated_at" -> k <> "created_at" ->
                           row !! k = userData !! k).
  { intros k H1 H2. unfold row. rewrite !lookup_insert_ne by congruence.
    reflexivity. }
  set (stored := match row !! "id" with
                 | Some _ => row
                 | None => <["id" := uuid]> row
                 end).
  assert (Hstored : forall k, k <> "id" -> stored !! k = row !! k).
  { intros k Hk. unfold stored. destruct (row !! "id"); [reflexivity |].
    rewrite lookup_insert_ne by congruence. reflexivity. }
  assert (Hid : stored !! "id" = Some (default uuid (userData !! "id"))).
  { unfold stored. rewrite (Hrow "id") by discriminate.
    destruct (userData !! "id") as [v |] eqn:Hv.
    - rewrite (Hrow "id") by discriminate. exact Hv.
    - apply lookup_insert_eq. }
  assert (Hcreated : stored !! "created_at" = Some now).
  { rewrite Hstored by discriminate. unfold row.
    rewrite lookup_insert_ne by discriminate. apply lookup_insert_eq. }
  assert (Hupdated : stored !! "updated_at" = Some now).
  { rewrite Hstored by discriminate. apply lookup_insert_eq. }
  assert (Hstored_email : stored !! "email" = Some (VStr email)).
  { rewrite Hstored, Hrow by discriminate. exact Hemail. }
  exists stored. cbn [fst snd].
  split; [reflexivity |]. split; [| split; [exact Hid |]].
  { f_equal. unfold KnexUserRepository.created_fields, get.
    rewrite Hid, Hcreated, Hupdated, Hstored_email.
    rewrite !Hstored, !Hrow by discriminate. reflexivity. }
  split; [exact Hcreated |]. split; [exact Hupdated |].
  split; [rewrite Hstored, Hrow by discriminate; reflexivity |].
  split.
  - unfold KnexUserRepository.findByEmail, Knex.where_first in *.
    rewrite find_app_none by exact Hfresh. cbn [List.find].
    rewrite (proj2 (is_str_spec email (stored !! "email")) Hstored_email).
    reflexivity.
  - intros other Hother.
    unfold KnexUserRepository.findByEmail, Knex.where_first.
    destruct (List.find _ table) as [found |] eqn:Hfound.
    + rewrite (find_app_some _ _ _ _ Hfound). reflexivity.
    + rewrite find_app_none by exact Hfound. cbn [List.find].
      rewrite (proj2 (is_str_false other (stored !! "email")));
        [reflexivity |].
      rewrite Hstored_email. congruence.
Qed.

End WithEntity.

Lemma create_then_findByEmail_applied :
  let userData : gmap string value :=
    {[ "email" := VStr "new@example.com";
       "password" := VStr "$2b$10$secret";
       "name" := VStr "New User";
       "created_at" := VStr "1999-01-01T00:00:00.000Z" ]} in
  let table' :=
    snd (KnexUserRepository.create (fun row => row)
           (VStr "550e8400-e29b-41d4-a716-446655440003")
           (VStr "2024-01-01T00:00:00.000Z") userData Sample.table) in
  exists stored,
    KnexUserRepository.findByEmail (fun row => row) table' "new@example.com"
    = Some stored
    /\ stored !! "created_at" = Some (VStr "2024-01-01T00:00:00.000Z")
    /\ stored !! "id" = Some (VStr "550e8400-e29b-41d4-a716-446655440003").
Proof.
  intros userData table'.
  destruct (create_then_findByEmail (fun row => row)
              (VStr "550e8400-e29b-41d4-a716-446655440003")
              (VStr "2024-01-01T00:00:00.000Z") userData Sample.table
              "new@example.com")
    as (stored & _ & _ & Hid & Hcreated & _ & _ & Hfind & _).
  - reflexivity.
  - reflexivity.
  - exists stored. split; [exact Hfind |]. split; [exact Hcreated |].
    exact Hid.
Defined.

Lemma seed_table (hash : string -> Z -> string) (uuid : nat -> value)
  (now : value) (table : Knex.Table) :
  SeedUsers.seed hash uuid now table
  = [ <["id" := uuid 0%nat]>
        (SeedUsers.seed_row "admin@example.com" (hash "password123" 10%Z)
                            "Admin User" now);
      <["id" := uuid 1%nat]>
        (SeedUsers.seed_row "user@example.com" (hash "password123" 10%Z)
                            "Test User" now);
      <["id" := uuid 2%nat]>
        (SeedUsers.seed_row "demo@example.com" (hash "password123" 10%Z)
                            "Demo User" now) ].
Proof. reflexivity. Qed.

Lemma seed_row_lookups (uuid now : value) (email hashed name : string) :
  let row := <["id" := uuid]> (SeedUsers.seed_row email hashed name now) in
  row !! "email" = Some (VStr email)
  /\ row !! "password" = Some (VStr hashed)
  /\ row !! "name" = Some (VStr name)
  /\ row !! "id" = Some uuid
  /\ row !! "created_at" = Some now
  /\ row !! "updated_at" = Some now.
Proof. repeat split. Qed.

Lemma seed_where_first (hash : string -> Z -> string) (uuid : nat -> value)
  (now : value) (table : Knex.Table) (email : string) :
  Knex.where_first "email" email (SeedUsers.seed hash uuid now table)
  = if String.eqb email "admin@example.com"
    then Some (<["id" := uuid 0%nat]>
                 (SeedUsers.seed_row email (hash "password123" 10%Z)
                                     "Admin User" now))
    else if String.eqb email "user@example.com"
    then Some (<["id" := uuid 1%nat]>
                 (SeedUsers.seed_row email (hash "password123" 10%Z)
                                     "Test User" now))
    else if String.eqb email "demo@example.com"
    then Some (<["id" := uuid 2%nat]>
                 (SeedUsers.seed_row email (hash "password123" 10%Z)
                                     "Demo User" now))
    else None.
Proof.
  rewrite seed_table. unfold Knex.where_first.
  cbn [List.find].
  rewrite !(proj1 (seed_row_lookups _ _ _ _ _)).
  unfold is_str.
  destruct (String.eqb_spec email "admin@example.com") as [-> | _];
    [reflexivity |].
  destruct (String.eqb_spec email "user@example.com") as [-> | _];
    [reflexivity |].
  destruct (String.eqb_spec email "demo@example.com") as [-> | _];
    reflexivity.
Qed.

(** X7.  After the seed the users table holds exactly the three test users,
    whatever it held before: the repository finds [admin@example.com],
    [user@example.com] and [demo@example.com], each as the entity built
    from a row that holds the hash of the one test password, and no other
    email. *)
Theorem seed_leaves_three_users :
  forall (newUser : gmap string value -> gmap string value)
         (hash : string -> Z -> string) (uuid : nat -> value) (now : value)
         (table : Knex.Table) (email : string),
    let db := SeedUsers.seed hash uuid now table in
    let hashed := hash "password123" 10%Z in
    length db = 3
    /\ db = SeedUsers.seed hash uuid now []
    /\ KnexUserRepository.findByEmail newUser db email
       = if String.eqb email "admin@example.com"
         then Some (newUser
                      (<["id" := uuid 0%nat]>
                         (SeedUsers.seed_row email hashed "Admin User" now)))
         else if String.eqb email "user@example.com"
         then Some (newUser
                      (<["id" := uuid 1%nat]>
                         (SeedUsers.seed_row email hashed "Test User" now)))
         else if String.eqb email "demo@example.com"
         then Some (newUser
                      (<["id" := uuid 2%nat]>
                         (SeedUsers.seed_row email hashed "Demo User" now)))
         else None.
Proof.
  intros newUser hash uuid now table email db hashed.
  split; [reflexivity |]. split; [reflexivity |].
  unfold KnexUserRepository.findByEmail. subst db.
  rewrite seed_where_first.
  destruct (String.eqb email "admin@example.com"); [reflexivity |].
  destruct (String.eqb email "user@example.com"); [reflexivity |].
  destruct (String.eqb email "demo@example.com"); reflexivity.
Qed.

(** X8.  After the seed, each of the three test users logs in with the test
    password whenever the hasher accepts that password against the
    [password] of the entity built from the user's row, a row that holds
    the hash of the test password; the result is that entity without
    [password], and the table is as the seed left it. *)
Theorem seeded_users_log_in :
  forall (w : World) (hash : string -> Z -> string) (gen : nat -> value)
         (stamp : value) (table : Knex.Table) (email : string),
    In email ["admin@example.com"; "user@example.com"; "demo@example.com"] ->
    let db := mkDatabase (SeedUsers.seed hash gen stamp table) None in
    exists row,
      Knex.where_first "email" email (rows db) = Some row
      /\ row !! "email" = Some (VStr email)
      /\ row !! "password" = Some (VStr (hash "password123" 10%Z))
      /\ (hasher w "password123" (get "password" (entity w row)) = inr true ->
          run w (LoginUseCase.execute
                   (LoginUseCase.mkLoginInput email "password123")) db
          = mkRun (Returned (LoginUseCase.mkLoginOutput
                               (delete "password" (entity w row)) None))
                  db
                  [EvFindByEmail email;
                   EvCompare "password123"
                             (get "password" (entity w row))]).
Proof.
  intros w hash gen stamp table email Hin db.
  assert (Hrun : forall row,
             Knex.where_first "email" email (rows db) = Some row ->
             hasher w "password123" (get "password" (entity w row))
             = inr true ->
             run w (LoginUseCase.execute
                      (LoginUseCase.mkLoginInput email "password123")) db
             = mkRun (Returned (LoginUseCase.mkLoginOutput
                                  (delete "password" (entity w row)) None))
                     db
                     [EvFindByEmail email;
                      EvCompare "password123"
                                (get "password" (entity w row))]).
  { intros row Hrow Hok. rewrite LoginFacts.run_execute.
    cbn [LoginUseCase.email LoginUseCase.password].
    unfold KnexUserRepository.findByEmail. rewrite Hrow.
    subst db. cbn [outage]. rewrite Hok. reflexivity. }
  revert Hrun. subst db. cbn [rows]. rewrite seed_where_first.
  cbn in Hin.
  destruct Hin as [<- | [<- | [<- | []]]]; simpl String.eqb; cbv iota.
  all: intros Hrun; eexists; split; [reflexivity |].
  all: split; [reflexivity |]; split; [reflexivity |].
  all: apply Hrun; reflexivity.
Qed.

Lemma seeded_users_log_in_applied :
  exists out,
    result (run Sample.world
                (LoginUseCase.execute
                   (LoginUseCase.mkLoginInput "demo@example.com"
                                              "password123"))
                Sample.db)
    = Returned out
    /\ LoginUseCase.user out !! "password" = None
    /\ LoginUseCase.user out !! "name" = Some (VStr "Demo User").
Proof.
  destruct (seeded_users_log_in
              Sample.world Sample.hash Sample.uuid Sample.now []
              "demo@example.com")
    as (row & Hrow & _ & _ & Hrun).
  - cbn. tauto.
  - injection Hrow as <-.
    eexists. split.
    + unfold Sample.db, Sample.table. rewrite Hrun; reflexivity.
    + split; reflexivity.
Defined.

End RepositoryFacts.

(* ===================================================================== *)
(** * Properties of email normalisation *)
(* ===================================================================== *)

Module StrFacts.
Import Str.

Lemma is_space_lower_char (c : ascii) : is_space (lower_char c) = is_space c.
Proof. destruct c as [[] [] [] [] [] [] [] []]; reflexivity. Qed.

Lemma lower_char_idem (c : ascii) : lower_char (lower_char c) = lower_char c.
Proof. destruct c as [[] [] [] [] [] [] [] []]; reflexivity. Qed.

Lemma toLowerCase_idem (s : string) :
  toLowerCase (toLowerCase s) = toLowerCase s.
Proof.
  induction s as [| c s IH]; cbn; [reflexivity |].
  rewrite lower_char_idem, IH. reflexivity.
Qed.

Lemma length_toLowerCase (s : string) :
  String.length (toLowerCase s) = String.length s.
Proof. induction s as [| c s IH]; cbn; [reflexivity | rewrite IH; reflexivity]. Qed.

Lemma toLowerCase_trimStart (s : string) :
  toLowerCase (trimStart s) = trimStart (toLowerCase s).
Proof.
  induction s as [| c s IH]; cbn; [reflexivity |].
  rewrite is_space_lower_char. destruct (is_space c); [exact IH | reflexivity].
Qed.

Lemma toLowerCase_trimEnd (s : string) :
  toLowerCase (trimEnd s) = trimEnd (toLowerCase s).
Proof.
  induction s as [| c s IH]; cbn; [reflexivity |].
  rewrite <- IH, is_space_lower_char.
  destruct (trimEnd s) as [| d kept]; cbn; [| reflexivity].
  destruct (is_space c); reflexivity.
Qed.

Lemma toLowerCase_trim (s : string) :
  toLowerCase (trim s) = trim (toLowerCase s).
Proof. unfold trim. rewrite toLowerCase_trimEnd, toLowerCase_trimStart. reflexivity. Qed.

(** A string that is empty or starts with something else than white
    space. *)
Lemma trimStart_head (s : string) :
  match trimStart s with
  | EmptyString => True
  | String c _ => is_space c = false
  end.
Proof.
  induction s as [| c s IH]; cbn; [exact I |].
  destruct (is_space c) eqn:Hc; [exact IH | exact Hc].
Qed.

Lemma trimStart_fixed (s : string) :
  match s with
  | EmptyString => True
  | String c _ => is_space c = false
  end ->
  trimStart s = s.
Proof. destruct s as [| c s]; cbn; [reflexivity |]. intros ->. reflexivity. Qed.

Lemma trimEnd_head (s : string) :
  match s with
  | EmptyString => True
  | String c _ => is_space c = false
  end ->
  match trimEnd s with
  | EmptyString => True
  | String c _ => is_space c = false
  end.
Proof.
  destruct s as [| c s]; cbn; [trivial |]. intros Hc.
  destruct (trimEnd s); [rewrite Hc |]; exact Hc.
Qed.

Lemma trimEnd_idem (s : string) : trimEnd (trimEnd s) = trimEnd s.
Proof.
  induction s as [| c s IH]; cbn; [reflexivity |].
  destruct (trimEnd s) as [| d kept] eqn:Hkept.
  - destruct (is_space c) eqn:Hc; cbn; [reflexivity |].
    rewrite Hc. reflexivity.
  - cbn [trimEnd] in *. rewrite IH. reflexivity.
Qed.

Lemma trim_idem (s : string) : trim (trim s) = trim s.
Proof.
  unfold trim.
  rewrite (trimStart_fixed (trimEnd (trimStart s))).
  - apply trimEnd_idem.
  - apply trimEnd_head, trimStart_head.
Qed.

Lemma utf16_units_lower_char (c : ascii) :
  utf16_units (lower_char c) = utf16_units c.
Proof. destruct c as [[] [] [] [] [] [] [] []]; reflexivity. Qed.

(** Lowercasing keeps the length of the string. *)
Lemma js_length_toLowerCase (s : string) :
  js_length (toLowerCase s) = js_length s.
Proof.
  induction s as [| c s IH]; cbn [toLowerCase js_length]; [reflexivity |].
  rewrite utf16_units_lower_char, IH. reflexivity.
Qed.

End StrFacts.

(* ===================================================================== *)
(** * The contract of the request schema *)
(* ===================================================================== *)

Module SchemaContract.
Import LoginSchema.

Lemma parse_email_inl (isEmail : string -> bool) (v : value)
  (issues : list Zod.ZodIssue) :
  parse_email isEmail v = inl issues ->
  1 <= length issues <= 2
  /\ Forall (fun i => Zod.path i = ["email"]) issues.
Proof.
  unfold parse_email, email_checks.
  destruct v as [| | b | n | raw | items | props];
    try (intros [= <-]; cbn; split; [lia | repeat constructor]).
  destruct (isEmail raw); destruct (Nat.leb 1 (Str.js_length raw)); cbn;
    intros H; try discriminate H; injection H as <-; cbn;
    (split; [lia | repeat constructor]).
Qed.

Lemma parse_password_inl (v : value) (issues : list Zod.ZodIssue) :
  parse_password v = inl issues ->
  length issues = 1
  /\ Forall (fun i => Zod.path i = ["password"]) issues.
Proof.
  unfold parse_password, password_checks.
  destruct v as [| | b | n | raw | items | props];
    try (intros [= <-]; cbn; split; [lia | repeat constructor]).
  destruct (Nat.leb_spec 6 (Str.js_length raw)) as [Hmin | Hmin];
    destruct (Nat.leb_spec (Str.js_length raw) 100) as [Hmax | Hmax]; cbn;
    intros Hparse; try discriminate Hparse; try lia;
    injection Hparse as <-; cbn; (split; [lia | repeat constructor]).
Qed.

(** X9.  The schema accepts a body exactly when it is an object whose
    [email] is a string that passes the format check and is not empty and
    whose [password] is a string of 6 to 100 characters; the DTO then holds
    the email lowercased and trimmed and the password exactly as sent. *)
Theorem schema_accepts_exactly :
  forall (isEmail : string -> bool) (body : value) (dto : LoginDto),
    safeParse isEmail body = inr dto
    <-> exists props raw,
          body = VObj props
          /\ get "email" props = VStr raw
          /\ isEmail raw = true
          /\ 1 <= Str.js_length raw
          /\ get "password" props = VStr (password dto)
          /\ 6 <= Str.js_length (password dto) <= 100
          /\ email dto = Str.trim (Str.toLowerCase raw).
Proof. intros isEmail body dto. apply SchemaFacts.safeParse_inr. Qed.

Lemma rejection_issue_count (isEmail : string -> bool)
  (body : value) (issues : list Zod.ZodIssue) :
  safeParse isEmail body = inl issues -> 1 <= length issues <= 3.
Proof.
  destruct body as [| | b | n | s | items | props]; cbn [safeParse];
    try (intros [= <-]; cbn; lia).
  destruct (parse_email isEmail (get "email" props)) as [ie | e] eqn:He;
    destruct (parse_password (get "password" props)) as [ip | p] eqn:Hp;
    try discriminate; intros [= <-]; cbn [issues_of];
    try (apply parse_email_inl in He as [Hlen He]);
    try (apply parse_password_inl in Hp as [Hlen' Hp]);
    rewrite ?length_app; cbn; lia.
Qed.

(** X10.  A rejection always says why: it carries between one and three
    issues (at most two for [email], at most one for [password], since a
    password cannot be both too short and too long), each on the path
    [email], on the path [password] or, for a body that is not an object,
    on the empty path. *)
Theorem schema_rejection_issues :
  forall (isEmail : string -> bool) (body : value)
         (issues : list Zod.ZodIssue),
    safeParse isEmail body = inl issues ->
    1 <= length issues <= 3
    /\ Forall (fun i => Zod.path i = ["email"]
                        \/ Zod.path i = ["password"]
                        \/ Zod.path i = []) issues.
Proof.
  intros isEmail body issues.
  destruct body as [| | b | n | s | items | props]; cbn [safeParse];
    try (intros [= <-]; cbn; split;
         [lia | constructor; [right; right; reflexivity | constructor]]).
  destruct (parse_email isEmail (get "email" props)) as [ie | e] eqn:He;
    destruct (parse_password (get "password" props)) as [ip | p] eqn:Hp;
    try discriminate; intros [= <-]; cbn [issues_of].
  - apply parse_email_inl in He as [Hlen He].
    apply parse_password_inl in Hp as [Hlen' Hp].
    rewrite length_app. split; [lia |].
    apply Forall_app. split; eapply Forall_impl; eauto; cbn; auto.
  - apply parse_email_inl in He as [Hlen He].
    rewrite length_app. cbn. split; [lia |].
    apply Forall_app. split; [| constructor].
    eapply Forall_impl; eauto; cbn; auto.
  - apply parse_password_inl in Hp as [Hlen' Hp]. cbn [app].
    split; [lia |]. eapply Forall_impl; eauto; cbn; auto.
Qed.

Lemma schema_rejection_issues_applied :
  1 <= length [issue "email" "Must be a valid email address";
               issue "password" "Password must be at least 6 characters"]
    <= 3.
Proof.
  apply (schema_rejection_issues Zod.isEmail
           (AuthController.credentials "not-an-email" "ab")).
  reflexivity.
Defined.

(** X11.  Properties of the body other than [email] and [password] play no
    part: adding, changing or removing one changes neither the verdict nor
    the DTO. *)
Theorem schema_ignores_other_properties :
  forall (isEmail : string -> bool) (props : gmap string value)
         (k : string) (v : value),
    k <> "email" -> k <> "password" ->
    safeParse isEmail (VObj (<[k := v]> props)) = safeParse isEmail (VObj props)
    /\ safeParse isEmail (VObj (delete k props))
       = safeParse isEmail (VObj props).
Proof.
  intros isEmail props k v Hemail Hpassword. cbn [safeParse]. unfold get.
  rewrite !lookup_insert_ne, !lookup_delete_ne by congruence.
  split; reflexivity.
Qed.

Lemma schema_ignores_other_properties_applied :
  safeParse Zod.isEmail
    (VObj (<["role" := VStr "admin"]>
             {[ "email" := VStr "user@example.com";
                "password" := VStr "password123" ]}))
  = safeParse Zod.isEmail
      (AuthController.credentials "user@example.com" "password123").
Proof.
  apply (schema_ignores_other_properties Zod.isEmail); discriminate.
Defined.

(** X12.  The email of an accepted DTO is in normal form: lowercasing it or
    trimming it again changes nothing, so a client that sends back the
    normalised email is looked up under the same key. *)
Theorem accepted_email_is_normalised :
  forall (isEmail : string -> bool) (body : value) (dto : LoginDto),
    safeParse isEmail body = inr dto ->
    Str.toLowerCase (email dto) = email dto
    /\ Str.trim (email dto) = email dto
    /\ Str.trim (Str.toLowerCase (email dto)) = email dto.
Proof.
  intros isEmail body dto H.
  apply SchemaFacts.safeParse_inr in H
    as (props & raw & _ & _ & _ & _ & _ & _ & ->).
  assert (Hlower : Str.toLowerCase (Str.trim (Str.toLowerCase raw))
                   = Str.trim (Str.toLowerCase raw)).
  { rewrite StrFacts.toLowerCase_trim, StrFacts.toLowerCase_idem.
    reflexivity. }
  split; [exact Hlower |]. split; [apply StrFacts.trim_idem |].
  rewrite Hlower. apply StrFacts.trim_idem.
Qed.

Lemma accepted_email_is_normalised_applied :
  Str.trim (Str.toLowerCase "demo@example.com") = "demo@example.com".
Proof.
  apply (accepted_email_is_normalised Zod.isEmail
           (AuthController.credentials "Demo@Example.COM" "password123")
           (mkLoginDto "demo@example.com" "password123")).
  reflexivity.
Defined.

(** X13.  The format check sees the email as sent, before it is lowercased
    and trimmed: a string the check refuses is rejected with the format
    issue even if its normalised form would pass. *)
Theorem format_is_checked_before_normalising :
  forall (isEmail : string -> bool) (props : gmap string value)
         (raw : string),
    get "email" props = VStr raw ->
    isEmail raw = false ->
    exists issues,
      safeParse isEmail (VObj props) = inl issues
      /\ issue "email" "Must be a valid email address" ∈ issues.
Proof.
  intros isEmail props raw Hraw Hfmt. cbn [safeParse]. rewrite Hraw.
  unfold parse_email at 1, email_checks. rewrite Hfmt.
  cbn [app].
  destruct (parse_password (get "password" props)) as [ip | p];
    eexists; (split; [reflexivity |]); cbn [issues_of];
    rewrite ?elem_of_app; try left; apply elem_of_cons; left; reflexivity.
Qed.

Lemma format_is_checked_before_normalising_applied :
  Zod.isEmail (Str.trim (Str.toLowerCase " user@example.com")) = true
  /\ exists issues,
       safeParse Zod.isEmail
         (AuthController.credentials " user@example.com" "password123")
       = inl issues
       /\ issue "email" "Must be a valid email address" ∈ issues.
Proof.
  split; [reflexivity |].
  apply (format_is_checked_before_normalising Zod.isEmail _
           " user@example.com"); reflexivity.
Defined.

Lemma parse_email_case (isEmail : string -> bool) (raw1 raw2 : string) :
  isEmail raw1 = true -> isEmail raw2 = true ->
  Str.toLowerCase raw1 = Str.toLowerCase raw2 ->
  parse_email isEmail (VStr raw1) = parse_email isEmail (VStr raw2).
Proof.
  intros H1 H2 Hlower.
  assert (Hlen : Str.js_length raw1 = Str.js_length raw2).
  { rewrite <- (StrFacts.js_length_toLowerCase raw1), Hlower.
    apply StrFacts.js_length_toLowerCase. }
  unfold parse_email, email_checks.
  rewrite H1, H2, Hlen, Hlower. reflexivity.
Qed.

(** X20.  To the schema the letter case of the email makes no difference:
    two bodies whose emails pass the format check and differ only in upper
    and lower case, with the same password, get the same verdict, and when
    accepted the same DTO. *)
Theorem schema_ignores_letter_case :
  forall (isEmail : string -> bool) (raw1 raw2 pw : string),
    isEmail raw1 = true ->
    isEmail raw2 = true ->
    Str.toLowerCase raw1 = Str.toLowerCase raw2 ->
    safeParse isEmail (AuthController.credentials raw1 pw)
    = safeParse isEmail (AuthController.credentials raw2 pw).
Proof.
  intros isEmail raw1 raw2 pw H1 H2 Hlower.
  unfold AuthController.credentials. cbn [safeParse].
  rewrite !PipelineFacts.get_credentials_email,
    !PipelineFacts.get_credentials_password.
  rewrite (parse_email_case isEmail raw1 raw2 H1 H2 Hlower). reflexivity.
Qed.

Lemma schema_ignores_letter_case_applied :
  safeParse Zod.isEmail
    (AuthController.credentials "USER@Example.com" "password123")
  = safeParse Zod.isEmail
      (AuthController.credentials "user@EXAMPLE.COM" "password123").
Proof.
  apply schema_ignores_letter_case; reflexivity.
Defined.

End SchemaContract.

(* ===================================================================== *)
(** * The login route: use case, handler and interceptor together *)
(* ===================================================================== *)

Module RouteFacts.
Import AuthController.

(** X14.  [execute] succeeds exactly when the database answers, the users
    table holds a row under the email as given and the hasher accepts the
    password against the [password] of the entity built from that row; the
    result is then that entity without [password], and no token. *)
Theorem login_succeeds_exactly_when :
  forall (w : World) (db : Database)
         (input : LoginUseCase.LoginInput) (out : LoginUseCase.LoginOutput),
    result (run w (LoginUseCase.execute input) db) = Returned out
    <-> outage db = None
        /\ exists row,
             Knex.where_first "email" (LoginUseCase.email input) (rows db)
             = Some row
             /\ hasher w (LoginUseCase.password input)
                         (get "password" (entity w row))
                = inr true
             /\ out = LoginUseCase.mkLoginOutput
                        (delete "password" (entity w row)) None.
Proof.
  intros w db input out. rewrite LoginFacts.run_execute.
  unfold KnexUserRepository.findByEmail. split.
  - destruct (outage db); cbn [result]; [discriminate |].
    destruct (Knex.where_first "email" (LoginUseCase.email input) (rows db))
      as [row |]; cbn [result]; [| discriminate].
    destruct (hasher w _ _) as [err | [|]] eqn:Hok; try discriminate.
    intros [= <-]. split; [reflexivity |]. exists row. auto.
  - intros (-> & row & -> & Hok & ->). cbn [result]. rewrite Hok.
    reflexivity.
Qed.

(** X15.  The handler calls no collaborator of its own and touches no
    table: its run has the trace and the database of the use case's run,
    an exception of the use case or of a collaborator passes through
    unchanged, and a result is answered with the public user fields, the
    token and the fixed message. *)
Theorem handler_adds_nothing_to_use_case :
  forall (w : World) (db : Database) (dto : LoginSchema.LoginDto),
    let used :=
      run w
          (LoginUseCase.execute
             (LoginUseCase.mkLoginInput (LoginSchema.email dto)
                                        (LoginSchema.password dto))) db in
    let handled := run w (login dto) db in
    trace handled = trace used
    /\ store handled = store used
    /\ result handled
       = match result used with
         | Threw e => Threw e
         | Returned out =>
             Returned
               (VObj {[ "user" := VObj (user_fields (LoginUseCase.user out));
                        "token" := token_value (LoginUseCase.token out);
                        "message" := VStr "Login successful" ]})
         end.
Proof.
  intros w db dto used handled. subst used handled.
  unfold login. rewrite EffectFacts.run_bind.
  destruct (result (run w (LoginUseCase.execute _) db)) as [out | e];
    cbn [run result store trace]; rewrite ?app_nil_r; auto.
Qed.

(** X16.  Whatever properties the user found by the repository has, the
    user object of a successful answer has exactly [id], [email], [name],
    [createdAt] and [updatedAt], each read from that user: anything else
    the user holds is left out, and a property the user lacks is present
    with the value [undefined].  In particular, when the entity keeps the
    column names of the row, [createdAt] and [updatedAt] are answered
    [undefined], since the columns are [created_at] and [updated_at]. *)
Theorem handler_answers_with_public_fields_only :
  forall (w : World) (db : Database) (dto : LoginSchema.LoginDto)
         (body : value),
    result (run w (login dto) db) = Returned body ->
    exists row u publicUser,
      Knex.where_first "email" (LoginSchema.email dto) (rows db) = Some row
      /\ u = entity w row
      /\ body = VObj {[ "user" := VObj publicUser;
                        "token" := VUndefined;
                        "message" := VStr "Login successful" ]}
      /\ (forall k, is_Some (publicUser !! k)
                    <-> k ∈ ["id"; "email"; "name"; "createdAt"; "updatedAt"])
      /\ (forall k, k ∈ ["id"; "email"; "name"; "createdAt"; "updatedAt"] ->
                    publicUser !! k = Some (get k u))
      /\ (u !! "createdAt" = None ->
          publicUser !! "createdAt" = Some VUndefined)
      /\ (u !! "updatedAt" = None ->
          publicUser !! "updatedAt" = Some VUndefined).
Proof.
  intros w db dto body. rewrite ControllerFacts.run_login.
  unfold KnexUserRepository.findByEmail.
  destruct (outage db); cbn [result]; [discriminate |].
  destruct (Knex.where_first "email" (LoginSchema.email dto) (rows db))
    as [row |]; cbn [result]; [| discriminate].
  destruct (hasher w _ _) as [err | [|]]; try discriminate.
  intros [= <-]. exists row, (entity w row), (user_fields (entity w row)).
  split; [reflexivity |]. split; [reflexivity |]. split; [reflexivity |].
  split; [apply ControllerFacts.user_fields_keys |].
  split; [apply ControllerFacts.user_fields_values |].
  split; intros Hnone.
  - rewrite (ControllerFacts.user_fields_values _ "createdAt").
    + unfold get. rewrite Hnone. reflexivity.
    + rewrite !elem_of_cons. tauto.
  - rewrite (ControllerFacts.user_fields_values _ "updatedAt").
    + unfold get. rewrite Hnone. reflexivity.
    + rewrite !elem_of_cons. tauto.
Qed.

Lemma handler_answers_with_public_fields_only_applied :
  exists publicUser : gmap string value,
    result (run Sample.world
                (login (LoginSchema.mkLoginDto "user@example.com"
                                               "password123"))
                Sample.db)
    = Returned (VObj {[ "user" := VObj publicUser;
                        "token" := VUndefined;
                        "message" := VStr "Login successful" ]})
    /\ publicUser !! "name" = Some (VStr "Test User")
    /\ publicUser !! "created_at" = None
    /\ publicUser !! "password" = None
    /\ publicUser !! "createdAt" = Some VUndefined
    /\ publicUser !! "updatedAt" = Some VUndefined.
Proof.
  destruct (result (run Sample.world
                        (login (LoginSchema.mkLoginDto "user@example.com"
                                                       "password123"))
                        Sample.db)) as [body | e] eqn:Hrun;
    [| discriminate Hrun].
  destruct (handler_answers_with_public_fields_only
              Sample.world Sample.db
              (LoginSchema.mkLoginDto "user@example.com" "password123")
              body Hrun)
    as (row & u & publicUser & Hrow & -> & -> & Hkeys & Hvalues
        & Hcreated & Hupdated).
  injection Hrow as <-.
  exists publicUser. split; [reflexivity |].
  split; [rewrite (Hvalues "name"); [reflexivity |
                                     rewrite !elem_of_cons; tauto] |].
  split; [| split; [| split]].
  - apply eq_None_not_Some. rewrite Hkeys.
    rewrite !elem_of_cons, elem_of_nil. intros H.
    repeat (destruct H as [H | H]; [discriminate H |]). exact H.
  - apply eq_None_not_Some. rewrite Hkeys.
    rewrite !elem_of_cons, elem_of_nil. intros H.
    repeat (destruct H as [H | H]; [discriminate H |]). exact H.
  - apply Hcreated. reflexivity.
  - apply Hupdated. reflexivity.
Defined.

(** X17.  The answer of a successful login is never mistaken for an
    envelope: the interceptor wraps it, whole, as the [data] of a success
    envelope stamped with the time of the emission. *)
Theorem login_answer_is_wrapped :
  forall (w : World) (db : Database) (dto : LoginSchema.LoginDto)
         (body : value) (now : ResponseInterceptor.Date),
    result (run w (login dto) db) = Returned body ->
    ResponseInterceptor.isStandardFormat body = false
    /\ ResponseInterceptor.project now body
       = VObj {[ "success" := VBool true;
                 "data" := body;
                 "timestamp" := VStr (ResponseInterceptor.toISOString now) ]}
    /\ ResponseInterceptor.intercept (fun _ => now) [body]
       = [VObj {[ "success" := VBool true;
                  "data" := body;
                  "timestamp" :=
                    VStr (ResponseInterceptor.toISOString now) ]}].
Proof.
  intros w db dto body now. rewrite ControllerFacts.run_login.
  destruct (outage db); cbn [result]; [discriminate |].
  destruct (KnexUserRepository.findByEmail _ _ _) as [u |];
    cbn [result]; [| discriminate].
  destruct (hasher w _ _) as [err | [|]]; try discriminate.
  intros [= <-]. split; [reflexivity |]. split; reflexivity.
Qed.

Lemma login_answer_is_wrapped_applied :
  exists body,
    result (run Sample.world
                (login (LoginSchema.mkLoginDto "user@example.com"
                                               "password123"))
                Sample.db)
    = Returned body
    /\ ResponseInterceptor.project
         (ResponseInterceptor.mkDate "2024-01-01T00:00:00.000Z") body
       = ResponseInterceptor.envelope
           (ResponseInterceptor.mkDate "2024-01-01T00:00:00.000Z") body.
Proof.
  eexists. split.
  - rewrite ControllerFacts.run_login. reflexivity.
  - eapply (login_answer_is_wrapped Sample.world Sample.db
              (LoginSchema.mkLoginDto "user@example.com" "password123")).
    rewrite ControllerFacts.run_login. reflexivity.
Defined.

(** X18.  The interceptor answers one value for each value the handler
    emits, in the same order: the [i]-th answer is the normalisation of the
    [i]-th emission with the clock reading of that emission, and every
    answer is an object holding [success] and [timestamp]. *)
Theorem intercept_emits_envelopes_only :
  forall (clock : nat -> ResponseInterceptor.Date) (emitted : list value),
    length (ResponseInterceptor.intercept clock emitted) = length emitted
    /\ (forall i,
          ResponseInterceptor.intercept clock emitted !! i
          = ResponseInterceptor.project (clock i) <$> emitted !! i)
    /\ Forall ResponseInterceptor.already_enveloped
              (ResponseInterceptor.intercept clock emitted).
Proof.
  intros clock emitted. split; [| split].
  - unfold ResponseInterceptor.intercept. apply length_imap.
  - intros i. apply ResponseFacts.intercept_lookup.
  - apply Forall_lookup. intros i v.
    rewrite ResponseFacts.intercept_lookup.
    destruct (emitted !! i) as [data |]; cbn; [| discriminate].
    intros [= <-]. apply ResponseFacts.isStandardFormat_spec.
    apply ResponseFacts.project_is_standard.
Qed.

End RouteFacts.
